(** * PrevMed: question-flow navigation, display projection and scoring boundary

    A shallow embedding of [PrevMed/utils/logic.py], of the navigation
    closures of [PrevMed/utils/gui.py] ([update_question_display],
    [go_next], [go_prev]) and of [PrevMed/utils/scoring.py], followed by
    the widget construction and [compute_score] of [gui.py], the loaders of
    [PrevMed/utils/io.py], the [--auth] argument of [PrevMed/__main__.py]
    and the CSV log of [PrevMed/utils/pdf.py].

    Python values are an inductive type, dictionaries whose keys are strings
    are [gmap string _], exceptions are data ([Raise]), and the services the
    program gets from outside the repository (the builtin [eval], [str], the
    user's scoring script, the PDF writer) are the fields of a type class. *)

From Stdlib Require Import ZArith String Ascii List Bool Lia.
From stdpp Require Import base option list gmap strings pretty sorting.

Set Warnings "-register-all".
Local Open Scope string_scope.
Local Open Scope list_scope.
Local Open Scope Z_scope.

(** ** Python values *)

(** The answer values a Gradio widget hands back (None, bool, int, str) and
    the containers a scoring script can return.  Numbers are integers: the
    Number widget is created with [precision = 0]. *)
Inductive Value : Type :=
| VNone
| VBool (b : bool)
| VInt (n : Z)
| VStr (s : string)
| VList (items : list Value)
| VTuple (items : list Value)
| VDict (entries : list (string * Value)).

(** [bool(v)] *)
Definition truthy (v : Value) : bool :=
  match v with
  | VNone => false
  | VBool b => b
  | VInt n => negb (n =? 0)
  | VStr s => negb (String.eqb s EmptyString)
  | VList l | VTuple l => match l with [] => false | _ => true end
  | VDict d => match d with [] => false | _ => true end
  end.
Arguments truthy : simpl never.

(** ** Exceptions and outcomes *)

Inductive exn_kind : Type :=
| RuntimeError | ValueError | IndexError | TypeError | NameError
| SyntaxError | KeyError | OtherException.

(** An exception object: its class and [str(e)]. *)
Record exn : Type := Exn { exn_class : exn_kind; exn_str : string }.

(** What a call does: it returns, it raises, or it never comes back. *)
Inductive outcome (A : Type) : Type :=
| Return (a : A)
| Raise (e : exn)
| Diverge.
Arguments Return {A} a.
Arguments Raise {A} e.
Arguments Diverge {A}.

#[global] Instance outcome_ret : MRet outcome := fun A a => Return a.
#[global] Instance outcome_bind : MBind outcome := fun A B f m =>
  match m with
  | Return a => f a
  | Raise e => Raise e
  | Diverge => Diverge
  end.

(** [returns m]: the call comes back with a value. *)
Definition returns {A} (m : outcome A) : bool :=
  match m with
  | Return _ => true
  | _ => false
  end.

(** [try: body except Exception as e: handler(e)] *)
Definition try_except {A} (body : outcome A) (handler : exn -> outcome A) : outcome A :=
  match body with
  | Raise e => handler e
  | other => other
  end.

(** An expression evaluation either yields a value or raises. *)
Definition of_sum {A} (r : exn + A) : outcome A :=
  match r with
  | inl e => Raise e
  | inr a => Return a
  end.

(** ** Python sequences *)

(** [l[i]] with Python's negative indices; out of range is an [IndexError]. *)
Definition py_index {A} (l : list A) (i : Z) : outcome A :=
  let n := Z.of_nat (length l) in
  let j := if bool_decide (i < 0) then i + n else i in
  if bool_decide (0 <= j) then
    match l !! Z.to_nat j with
    | Some x => Return x
    | None => Raise (Exn IndexError "index out of range")
    end
  else Raise (Exn IndexError "index out of range").

(** [l[:stop]]: a negative [stop] counts from the end, and the bounds are
    clipped to the list. *)
Definition py_slice_to {A} (l : list A) (stop : Z) : list A :=
  let n := Z.of_nat (length l) in
  let k := if bool_decide (stop < 0) then Z.max 0 (stop + n) else stop in
  take (Z.to_nat k) l.

(** [s.strip()] of a [str] is the empty string: every character is white space.  The
    string is a byte string here, so this is Python's set of ASCII white
    space (space, tab to carriage return, and the separators 28 to 31). *)
Definition py_isspace (c : ascii) : bool :=
  let n := nat_of_ascii c in
  ((n =? 32) || ((9 <=? n) && (n <=? 13)) || ((28 <=? n) && (n <=? 31)))%nat.

Fixpoint strip_is_empty (s : string) : bool :=
  match s with
  | EmptyString => true
  | String c rest => py_isspace c && strip_is_empty rest
  end.

(** ** The question descriptor (one entry of the YAML [questions] list) *)

Record Question : Type := {
  order : Z;
  variable : string;
  question : string;
  widget : string;
  widget_args : option (gmap string Value);
  skip_if : option string;
  valid_if : option string;
  invalid_message : option string
}.

(** ** What the program is given from outside the repository *)

(** R objects as rpy2 shows them: an atomic vector (its elements already
    converted to Python values), a list with names, or NULL. *)
Inductive RObj : Type :=
| RNull
| RVector (elems : list Value)
| RList (elems : list (string * RObj)).

Class Host : Type := {
  (** [eval(condition, {"__builtins__": {}}, context)] *)
  py_eval : string -> gmap string Value -> exn + Value;
  (** [str(val)] *)
  py_str : Value -> string;
  (** [exec(code, namespace)] followed by [namespace.get("scoring")]: the
      script may raise, may define no [scoring], or defines a callable that
      is applied to the keyword arguments. *)
  py_exec : string -> outcome (option (gmap string Value -> outcome Value));
  (** [ro.r(code)], then the R function [scoring] applied to the converted
      keyword arguments *)
  r_call_scoring : string -> gmap string Value -> outcome RObj;
  (** what [go_next] captures from the request *)
  ClientInfo : Type;
  (** [generate_pdf_report(...)]: the path of the report, or an exception *)
  generate_pdf_report :
    list Question -> gmap string Value -> string -> list (list string) ->
    Value -> option ClientInfo -> outcome string
}.

(** ** PrevMed/utils/logic.py *)

Section Logic.
Context {host : Host}.

Definition evaluate_skip_if (condition : string) (context : gmap string Value)
  : outcome bool :=
  try_except
    (v ← of_sum (py_eval condition context); Return (truthy v))
    (fun e =>
       Raise (Exn RuntimeError
                ("Échec de l'évaluation de la condition '" +:+ condition
                 +:+ "': " +:+ exn_str e))).

Definition evaluate_valid_if (condition : string) (context : gmap string Value)
  : outcome bool :=
  try_except
    (v ← of_sum (py_eval condition context); Return (truthy v))
    (fun e =>
       Raise (Exn RuntimeError
                ("Échec de l'évaluation de la condition valid_if '" +:+ condition
                 +:+ "': " +:+ exn_str e))).

(** The [while 0 <= idx < len(questions)] loop and the boundary value
    after it.  [fuel] bounds the number of iterations; running out of it
    is [Diverge]. *)
Fixpoint find_next_loop (fuel : nat) (questions : list Question)
    (context : gmap string Value) (direction idx : Z) : outcome Z :=
  match fuel with
  | O => Diverge
  | S fuel' =>
      if bool_decide (0 <= idx < Z.of_nat (length questions)) then
        q ← py_index questions idx;
        match skip_if q with
        | None => Return idx
        | Some condition =>
            skip ← evaluate_skip_if condition context;
            if negb skip then Return idx
            else find_next_loop fuel' questions context direction (idx + direction)
        end
      else
        Return (if bool_decide (idx >= Z.of_nat (length questions)) then idx else 0)
  end.

Definition find_next_valid_question (current_idx : Z) (questions : list Question)
    (context : gmap string Value) (direction : Z) : outcome Z :=
  find_next_loop (S (length questions)) questions context direction
                 (current_idx + direction).

End Logic.

(** ** PrevMed/utils/scoring.py *)

(** What [x[i]], [str(x)], [len(x)] and iteration meet when they walk through
    an rpy2 result: an R object, or a Python value an R vector element has
    been converted to. *)
Inductive RItem : Type :=
| IVal (v : Value)
| IObj (o : RObj).

Definition str_chars (s : string) : list Value :=
  (fun c => VStr (String c EmptyString)) <$> list_ascii_of_string s.

(** [iter(v)] of a Python value *)
Definition py_iter (v : Value) : outcome (list Value) :=
  match v with
  | VList l | VTuple l => Return l
  | VStr s => Return (str_chars s)
  | VDict d => Return ((fun kv => VStr kv.1) <$> d)
  | _ => Raise (Exn TypeError "object is not iterable")
  end.

Definition r_len (o : RObj) : Z :=
  match o with
  | RNull => 0
  | RVector l => Z.of_nat (length l)
  | RList l => Z.of_nat (length l)
  end.

Definition r_getitem (x : RItem) (i : Z) : outcome RItem :=
  match x with
  | IObj RNull => Raise (Exn IndexError "index out of range")
  | IObj (RVector l) => v ← py_index l i; Return (IVal v)
  | IObj (RList l) => e ← py_index l i; Return (IObj e.2)
  | IVal (VStr s) => c ← py_index (str_chars s) i; Return (IVal c)
  | IVal (VList l) | IVal (VTuple l) => v ← py_index l i; Return (IVal v)
  | IVal _ => Raise (Exn TypeError "object is not subscriptable")
  end.

Definition r_iter (x : RItem) : outcome (list RItem) :=
  match x with
  | IObj RNull => Return []
  | IObj (RVector l) => Return (IVal <$> l)
  | IObj (RList l) => Return ((fun e => IObj e.2) <$> l)
  | IVal v => l ← py_iter v; Return (IVal <$> (l : list Value))
  end.

(** [options_list.rx2(name)]: the element of that name, NULL when the list
    has none; only R objects have the method. *)
Definition r_rx2 (x : RItem) (name : string) : outcome RItem :=
  match x with
  | IObj (RList l) =>
      match List.find (fun e => String.eqb e.1 name) l with
      | Some e => Return (IObj e.2)
      | None => Return (IObj RNull)
      end
  | IObj _ => Return (IObj RNull)
  | IVal _ => Raise (Exn OtherException "object has no attribute 'rx2'")
  end.

Section Scoring.
Context {host : Host}.

(** [str(x)]; the printed form of an R object (a result that nests lists
    where the contract has vectors) is stood for by one fixed text. *)
Definition r_str (x : RItem) : string :=
  match x with
  | IVal v => py_str v
  | IObj _ => "<R object>"
  end.

Definition r_bool (x : RItem) : bool :=
  match x with
  | IVal v => truthy v
  | IObj o => negb (r_len o =? 0)
  end.

Definition execute_scoring_r (code : string) (inputs : gmap string Value)
  : outcome (string * list (list string) * Value) :=
  result ← r_call_scoring code inputs;
  if bool_decide (r_len result ≠ 3) then
    Raise (Exn ValueError
             ("R scoring function must return a list with 3 elements (markdown, table_data, options), got "
              +:+ pretty (r_len result)))
  else
    md_vec ← r_getitem (IObj result) 0;
    md ← r_getitem md_vec 0;
    let markdown_str := r_str md in
    table_list ← r_getitem (IObj result) 1;
    rows ← r_iter table_list;
    table_data ← mapM (fun row_vector =>
                         vals ← r_iter row_vector; Return (r_str <$> (vals : list RItem))) rows;
    options_list ← r_getitem (IObj result) 2;
    o1 ← r_rx2 options_list "include_md_in_pdf";
    b1 ← r_getitem o1 0;
    o2 ← r_rx2 options_list "include_data_in_pdf";
    b2 ← r_getitem o2 0;
    let pdf_options :=
      VDict [("include_md_in_pdf", VBool (r_bool b1));
             ("include_data_in_pdf", VBool (r_bool b2))] in
    Return (markdown_str, table_data, pdf_options).

(** [for i, row in enumerate(table_data[1:], start=1)]: every data row is
    as long as the header row. *)
Fixpoint check_rows (header_len : nat) (i : Z) (rows : list (list string))
  : outcome unit :=
  match rows with
  | [] => Return ()
  | row :: rest =>
      if bool_decide (length row ≠ header_len) then
        Raise (Exn ValueError
                 ("Row " +:+ pretty i +:+ " has " +:+ pretty (length row)
                  +:+ " columns but headers have " +:+ pretty header_len
                  +:+ " columns"))
      else check_rows header_len (i + 1) rest
  end.

(** The texts of the type errors stop before the Python type name that the
    source appends to them. *)
Definition execute_scoring_python (code : string) (inputs : gmap string Value)
  : outcome (string * list (list string) * Value) :=
  try_except
    (namespace ← py_exec code;
     match namespace with
     | None =>
         Raise (Exn ValueError "Fonction 'scoring' introuvable dans le code de scoring")
     | Some scoring =>
         result ← scoring inputs;
         match result with
         | VTuple [markdown_str; table_data; pdf_options] =>
             match markdown_str, table_data, pdf_options with
             | VStr md, VList rows, VDict _ =>
                 if bool_decide (length rows = 0%nat) then
                   Raise (Exn ValueError
                            "Table data must have at least one row (headers)")
                 else
                   table ← mapM (fun row =>
                                   vals ← py_iter row; Return (py_str <$> (vals : list Value))) rows;
                   let header_len := length (default [] (head table)) in
                   _ ← check_rows header_len 1 (tail table);
                   Return (md, table, pdf_options)
             | VStr _, VList _, _ =>
                 Raise (Exn ValueError
                          "Third element of return tuple must be a dict (pdf_options)")
             | VStr _, _, _ =>
                 Raise (Exn ValueError
                          "Second element of return tuple must be a list (table_data)")
             | _, _, _ =>
                 Raise (Exn ValueError
                          "First element of return tuple must be a string (markdown)")
             end
         | _ =>
             Raise (Exn ValueError
                      "Python scoring function must return a tuple with 3 elements (markdown, table_data, options)")
         end
     end)
    (fun e =>
       Raise (Exn RuntimeError
                ("Erreur lors de l'exécution du scoring Python: " +:+ exn_str e))).

Definition execute_scoring (language code : string) (inputs : gmap string Value)
  : outcome (string * list (list string) * Value) :=
  if String.eqb language "r" then execute_scoring_r code inputs
  else if String.eqb language "python" then execute_scoring_python code inputs
  else Raise (Exn ValueError ("Langage de scoring non supporté: " +:+ language)).

End Scoring.

(** ** PrevMed/utils/gui.py: the navigation closures of [create_survey_interface] *)

(** The Gradio components the handlers write to.  A question's row and
    widget are reached through [widgets[q["variable"]]], so they are named by
    the variable. *)
Inductive component : Type :=
| Row (var : string)
| Widget (var : string)
| prev_btn
| next_btn
| current_question_idx
| result_output
| pdf_download
| error_output.

#[global] Instance component_eq_dec : EqDecision component.
Proof. solve_decision. Defined.

Definition component_code (c : component) : string + string + nat :=
  match c with
  | Row v => inl (inl v)
  | Widget v => inl (inr v)
  | prev_btn => inr 0%nat
  | next_btn => inr 1%nat
  | current_question_idx => inr 2%nat
  | result_output => inr 3%nat
  | pdf_download => inr 4%nat
  | error_output => inr 5%nat
  end.

Definition component_decode (x : string + string + nat) : component :=
  match x with
  | inl (inl v) => Row v
  | inl (inr v) => Widget v
  | inr 0%nat => prev_btn
  | inr 1%nat => next_btn
  | inr 2%nat => current_question_idx
  | inr 3%nat => result_output
  | inr 4%nat => pdf_download
  | inr _ => error_output
  end.

#[global] Instance component_countable : Countable component.
Proof.
  apply (inj_countable' component_code component_decode).
  intros c. destruct c; reflexivity.
Defined.

(** The value stored for a component: a [gr.update(...)] with the keyword
    arguments that were given, or the new value of the [gr.State]. *)
Inductive update : Type :=
| GrUpdate (visible : option bool) (interactive : option bool) (value : option Value)
| StateValue (idx : Z).

Section Gui.
Context {host : Host}.
(** captured by the closures *)
Variable questions : list Question.
Variable scoring_language scoring_code : string.

(** [context = {}; for i, q in enumerate(questions): context[q["variable"]] = args[i]] *)
Fixpoint build_context (i : Z) (qs : list Question) (args : list Value)
    (context : gmap string Value) : outcome (gmap string Value) :=
  match qs with
  | [] => Return context
  | q :: rest =>
      a ← py_index args i;
      build_context (i + 1) rest args (<[variable q := a]> context)
  end.

(** the [while 0 <= display_idx < len(questions)] loop of
    [update_question_display]; [fuel] as in [find_next_loop] *)
Fixpoint display_loop (fuel : nat) (context : gmap string Value) (display_idx : Z)
  : outcome Z :=
  match fuel with
  | O => Diverge
  | S fuel' =>
      if bool_decide (0 <= display_idx < Z.of_nat (length questions)) then
        q ← py_index questions display_idx;
        match skip_if q with
        | None => Return display_idx
        | Some condition =>
            if negb (truthy (VStr condition)) then Return display_idx
            else
              skip ← evaluate_skip_if condition context;
              if negb skip then Return display_idx
              else display_loop fuel' context (display_idx + 1)
        end
      else Return display_idx
  end.

(** [is_condition_met] of the row loop: [q.get("skip_if", None)] is tested
    for truth before it is evaluated. *)
Definition is_condition_met (q : Question) (context : gmap string Value)
  : outcome bool :=
  match skip_if q with
  | None => Return true
  | Some condition =>
      if negb (truthy (VStr condition)) then Return true
      else skip ← evaluate_skip_if condition context; Return (negb skip)
  end.

(** the body of [for i in range(start_idx, end_idx)], over the indices
    still to visit *)
Fixpoint update_rows (indices : list Z) (current_idx display_idx : Z)
    (args : list Value) (context : gmap string Value)
    (updates : gmap component update) : outcome (gmap component update) :=
  match indices with
  | [] => Return updates
  | i :: rest =>
      q ← py_index questions i;
      met ← is_condition_met q context;
      let is_visible := if bool_decide (i <= current_idx) then met else false in
      let is_interactive :=
        if bool_decide (i <= current_idx)
        then bool_decide (i = display_idx) && met else false in
      let updates := <[Row (variable q) := GrUpdate (Some is_visible) None None]> updates in
      a ← py_index args i;
      let updates :=
        <[Widget (variable q) := GrUpdate None (Some is_interactive) (Some a)]> updates in
      update_rows rest current_idx display_idx args context updates
  end.

(** [sum(1 for q in qs if ("skip_if" not in q) or (not evaluate_skip_if(q["skip_if"], context)))] *)
Fixpoint count_valid (qs : list Question) (context : gmap string Value) : outcome Z :=
  match qs with
  | [] => Return 0
  | q :: rest =>
      ok ← match skip_if q with
           | None => Return true
           | Some condition =>
               skip ← evaluate_skip_if condition context; Return (negb skip)
           end;
      n ← count_valid rest context;
      Return (if (ok : bool) then 1 + n else n)
  end.

Definition total_valid (context : gmap string Value) : outcome Z :=
  count_valid questions context.

Definition current_valid (display_idx : Z) (context : gmap string Value) : outcome Z :=
  count_valid (py_slice_to questions (display_idx + 1)) context.

Definition next_btn_label (display_idx current total : Z) : string :=
  if bool_decide (display_idx < Z.of_nat (length questions)) then
    if bool_decide (total > 0) then
      "Suivant → (Question " +:+ pretty current +:+ " / " +:+ pretty total +:+ ")"
    else "Suivant →"
  else "✓ Terminé".

Definition update_question_display (current_idx : Z) (args : list Value)
  : outcome (gmap component update) :=
  context ← build_context 0 questions args ∅;
  display_idx ← display_loop (S (length questions)) context current_idx;
  let start_idx := Z.max 0 (display_idx - 1) in
  let end_idx := Z.of_nat (length questions) in
  updates ← update_rows (seqZ start_idx (end_idx - start_idx))
              current_idx display_idx args context ∅;
  let prev_visible :=
    bool_decide (display_idx > 0) && bool_decide (display_idx < Z.of_nat (length questions)) in
  let next_visible := bool_decide (display_idx < Z.of_nat (length questions)) in
  total ← total_valid context;
  current ← current_valid display_idx context;
  let label := next_btn_label display_idx current total in
  let updates := <[prev_btn := GrUpdate (Some prev_visible) None None]> updates in
  let updates :=
    <[next_btn := GrUpdate (Some next_visible) None (Some (VStr label))]> updates in
  let updates := <[current_question_idx := StateValue display_idx]> updates in
  Return updates.

(** [current_value is None], or [current_value] is a [str] that
    [strip()] leaves empty *)
Definition is_empty (current_value : Value) : bool :=
  match current_value with
  | VNone => true
  | VStr s => strip_is_empty s
  | _ => false
  end.

Definition has_default (q : Question) : bool :=
  bool_decide (is_Some (default ∅ (widget_args q) !! "default")).

(** [go_next] from [# Build context from current values] to its end: the
    scan for the next question, the projection, and scoring with the report
    when the scan has left the list. *)
Definition go_next_advance (client_info : option ClientInfo) (current_idx : Z)
    (args : list Value) : outcome (gmap component update) :=
  context ← build_context 0 questions args ∅;
  new_idx ← find_next_valid_question current_idx questions context 1;
  updates ← update_question_display new_idx args;
  if bool_decide (new_idx >= Z.of_nat (length questions)) then
    inputs ← build_context 0 questions args ∅;
    try_except
      (r ← execute_scoring scoring_language scoring_code inputs;
       let '(markdown_result, result_data, pdf_options) :=
         (r : string * list (list string) * Value) in
       pdf_path ← generate_pdf_report questions inputs markdown_result
                    result_data pdf_options client_info;
       let updates :=
         <[result_output := GrUpdate (Some true) None (Some (VStr markdown_result))]>
           updates in
       let updates :=
         <[pdf_download := GrUpdate (Some true) None (Some (VStr pdf_path))]> updates in
       let updates := <[error_output := GrUpdate (Some false) None None]> updates in
       Return updates)
      (fun e =>
         let updates := <[result_output := GrUpdate (Some false) None None]> updates in
         let updates := <[pdf_download := GrUpdate (Some false) None None]> updates in
         let updates :=
           <[error_output := GrUpdate (Some true) None (Some (VStr (exn_str e)))]>
             updates in
         Return updates)
  else
    let updates := <[result_output := GrUpdate (Some false) None None]> updates in
    let updates := <[pdf_download := GrUpdate (Some false) None None]> updates in
    let updates := <[error_output := GrUpdate (Some false) None None]> updates in
    Return updates.

(** [go_next] from [# Check if answer meets validation criteria]: the
    [valid_if] gate, then the advance.  The first component of the result
    lists the [gr.Warning] notifications in the order they were raised. *)
Definition go_next_validate (client_info : option ClientInfo) (current_idx : Z)
    (args : list Value) (current_question : Question)
  : list string * outcome (gmap component update) :=
  match valid_if current_question with
  | None => ([], go_next_advance client_info current_idx args)
  | Some valid_if_condition =>
      match build_context 0 questions args ∅ with
      | Return context =>
          match evaluate_valid_if valid_if_condition context with
          | Raise e =>
              (["Erreur lors de la validation: " +:+ exn_str e],
               update_question_display current_idx args)
          | Diverge => ([], Diverge)
          | Return is_valid =>
              if negb is_valid then
                let warning_msg :=
                  match invalid_message current_question with
                  | Some m => m
                  | None =>
                      "La réponse à la question actuelle n'est pas valide: "
                      +:+ question current_question
                  end in
                ([warning_msg], update_question_display current_idx args)
              else ([], go_next_advance client_info current_idx args)
          end
      | Raise e => ([], Raise e)
      | Diverge => ([], Diverge)
      end
  end.

Definition go_next (client_info : option ClientInfo) (current_idx : Z)
    (args : list Value) : list string * outcome (gmap component update) :=
  match py_index args current_idx with
  | Return current_value =>
      match py_index questions current_idx with
      | Return current_question =>
          if negb (has_default current_question) && is_empty current_value then
            let warning_msg :=
              "Veuillez répondre à la question actuelle avant de continuer: "
              +:+ question current_question in
            ([warning_msg], update_question_display current_idx args)
          else go_next_validate client_info current_idx args current_question
      | Raise e => ([], Raise e)
      | Diverge => ([], Diverge)
      end
  | Raise e => ([], Raise e)
  | Diverge => ([], Diverge)
  end.

Definition go_prev (current_idx : Z) (args : list Value)
  : outcome (gmap component update) :=
  context ← build_context 0 questions args ∅;
  new_idx ← find_next_valid_question current_idx questions context (-1);
  update_question_display new_idx args.

End Gui.

(** ** A host to run the model on *)

(** A small host that the examples below are evaluated on.  Its [py_eval]
    understands the comparisons [name op literal] (one space around [op],
    which is one of [== != < <= > >=]; the literal is a decimal integer or a
    quoted string without quote or backslash inside) and gives them Python's
    meaning; anything else is reported as an exception.  Its scripts are the
    few one-line scoring scripts listed in [demo_py_exec] and
    [demo_r_call_scoring]. *)
Module Demo.

(** words separated by single spaces *)
Fixpoint words_from (s : string) (cur : string) : list string :=
  match s with
  | EmptyString => [cur]
  | String c rest =>
      if Ascii.eqb c " "%char then cur :: words_from rest EmptyString
      else words_from rest (cur +:+ String c EmptyString)
  end.

Definition words (s : string) : list string := words_from s EmptyString.

Definition is_lower (c : ascii) : bool :=
  let n := nat_of_ascii c in ((97 <=? n) && (n <=? 122))%nat.
Definition is_digit (c : ascii) : bool :=
  let n := nat_of_ascii c in ((48 <=? n) && (n <=? 57))%nat.
Definition is_name_char (c : ascii) : bool :=
  is_lower c || is_digit c || Ascii.eqb c "_"%char.

Definition keywords : list string :=
  ["and"; "as"; "assert"; "async"; "await"; "break"; "class"; "continue";
   "def"; "del"; "elif"; "else"; "except"; "finally"; "for"; "from";
   "global"; "if"; "import"; "in"; "is"; "lambda"; "nonlocal"; "not"; "or";
   "pass"; "raise"; "return"; "try"; "while"; "with"; "yield"].

(** an identifier of lower-case letters, digits and underscores that is
    not a keyword *)
Definition is_name (s : string) : bool :=
  match s with
  | EmptyString => false
  | String c rest =>
      is_lower c && forallb is_name_char (list_ascii_of_string rest)
      && negb (existsb (String.eqb s) keywords)
  end.

Fixpoint digits_value (l : list ascii) (acc : Z) : Z :=
  match l with
  | [] => acc
  | c :: rest => digits_value rest (10 * acc + Z.of_nat (nat_of_ascii c - 48))
  end.

(** a decimal integer literal; a leading zero is only allowed for zero *)
Definition parse_int (s : string) : option Z :=
  let l := list_ascii_of_string s in
  match l with
  | [] => None
  | c :: rest =>
      if forallb is_digit l then
        if Ascii.eqb c "0"%char && negb (digits_value l 0 =? 0) then None
        else Some (digits_value l 0)
      else None
  end.

Definition quote : ascii := "'"%char.

(** ['text'] with neither quote nor backslash inside *)
Definition parse_str (s : string) : option string :=
  match list_ascii_of_string s with
  | c :: rest =>
      match List.rev rest with
      | c' :: inner_rev =>
          if Ascii.eqb c quote && Ascii.eqb c' quote
             && forallb (fun x => negb (Ascii.eqb x quote) && negb (Ascii.eqb x "\"%char))
                  inner_rev
          then Some (string_of_list_ascii (List.rev inner_rev))
          else None
      | [] => None
      end
  | [] => None
  end.

Definition parse_literal (s : string) : option Value :=
  match parse_int s with
  | Some n => Some (VInt n)
  | None => VStr <$> parse_str s
  end.

(** the number a Python [int] or [bool] stands for in a comparison *)
Definition as_number (v : Value) : option Z :=
  match v with
  | VInt n => Some n
  | VBool b => Some (Z.b2z b)
  | _ => None
  end.

(** [v == lit] for a literal that is an integer or a string *)
Definition py_equal (v lit : Value) : bool :=
  match as_number v, as_number lit with
  | Some a, Some b => a =? b
  | _, _ =>
      match v, lit with
      | VStr a, VStr b => String.eqb a b
      | _, _ => false
      end
  end.

(** the order of two numbers or of two strings; [None] where Python
    raises a [TypeError] *)
Definition py_order (v lit : Value) : option comparison :=
  match as_number v, as_number lit with
  | Some a, Some b => Some (a ?= b)
  | _, _ =>
      match v, lit with
      | VStr a, VStr b => Some (String.compare a b)
      | _, _ => None
      end
  end.

Definition not_supported {A} : exn + A :=
  inl (Exn SyntaxError "expression outside the fragment of this host").

Definition ordered (test : comparison -> bool) (v lit : Value) : exn + Value :=
  match py_order v lit with
  | Some c => inr (VBool (test c))
  | None => inl (Exn TypeError "comparison not supported between these types")
  end.

Definition compare_op (op : string) (v lit : Value) : exn + Value :=
  if String.eqb op "==" then inr (VBool (py_equal v lit))
  else if String.eqb op "!=" then inr (VBool (negb (py_equal v lit)))
  else if String.eqb op "<" then
    ordered (fun c => match c with Lt => true | _ => false end) v lit
  else if String.eqb op "<=" then
    ordered (fun c => match c with Gt => false | _ => true end) v lit
  else if String.eqb op ">" then
    ordered (fun c => match c with Gt => true | _ => false end) v lit
  else if String.eqb op ">=" then
    ordered (fun c => match c with Lt => false | _ => true end) v lit
  else not_supported.

Definition demo_py_eval (condition : string) (context : gmap string Value)
  : exn + Value :=
  match words condition with
  | name :: op :: lit_words =>
      let lit := String.concat " " lit_words in
      if is_name name then
        match parse_literal lit with
        | Some l =>
            match context !! name with
            | Some v => compare_op op v l
            | None => inl (Exn NameError ("name '" +:+ name +:+ "' is not defined"))
            end
        | None => not_supported
        end
      else not_supported
  | _ => not_supported
  end.

(** [str] of the scalars; containers are not printed by this host *)
Definition demo_py_str (v : Value) : string :=
  match v with
  | VNone => "None"
  | VBool true => "True"
  | VBool false => "False"
  | VInt n => pretty n
  | VStr s => s
  | _ => "<container>"
  end.

Definition ok_script : string :=
  "scoring = lambda **kw: ('Low risk', [['score', 'risk'], ['1', 'low']], {})".
Definition ragged_script : string :=
  "scoring = lambda **kw: ('Low risk', [['score', 'risk'], ['1']], {})".
Definition empty_script : string :=
  "scoring = lambda **kw: ('Low risk', [], {})".
Definition no_scoring_script : string := "x = 1".

Definition table_of (rows : list (list string)) : Value :=
  VList ((fun row => VList (VStr <$> row)) <$> rows).

Definition demo_py_exec (code : string)
  : outcome (option (gmap string Value -> outcome Value)) :=
  if String.eqb code ok_script then
    Return (Some (fun _ =>
      Return (VTuple [VStr "Low risk"; table_of [["score"; "risk"]; ["1"; "low"]]; VDict []])))
  else if String.eqb code ragged_script then
    Return (Some (fun _ =>
      Return (VTuple [VStr "Low risk"; table_of [["score"; "risk"]; ["1"]]; VDict []])))
  else if String.eqb code empty_script then
    Return (Some (fun _ => Return (VTuple [VStr "Low risk"; VList []; VDict []])))
  else if String.eqb code no_scoring_script then Return None
  else Raise (Exn SyntaxError "script outside the fragment of this host").

Definition r_options : RObj :=
  RList [("include_md_in_pdf", RVector [VBool true]);
         ("include_data_in_pdf", RVector [VBool true])].

Definition r_table (rows : list (list string)) : RObj :=
  RList ((fun row => (EmptyString, RVector (VStr <$> row))) <$> rows).

Definition r_ok_script : string :=
  "scoring <- function(...) list('Low risk', list(c('score', 'risk'), c('1', 'low')), list(include_md_in_pdf = TRUE, include_data_in_pdf = TRUE))".
Definition r_ragged_script : string :=
  "scoring <- function(...) list('Low risk', list(c('score', 'risk'), c('1')), list(include_md_in_pdf = TRUE, include_data_in_pdf = TRUE))".
Definition r_empty_script : string :=
  "scoring <- function(...) list('Low risk', list(), list(include_md_in_pdf = TRUE, include_data_in_pdf = TRUE))".

Definition r_result (rows : list (list string)) : RObj :=
  RList [(EmptyString, RVector [VStr "Low risk"]); (EmptyString, r_table rows);
         (EmptyString, r_options)].

Definition demo_r_call_scoring (code : string) (inputs : gmap string Value)
  : outcome RObj :=
  if String.eqb code r_ok_script then Return (r_result [["score"; "risk"]; ["1"; "low"]])
  else if String.eqb code r_ragged_script then Return (r_result [["score"; "risk"]; ["1"]])
  else if String.eqb code r_empty_script then Return (r_result [])
  else Raise (Exn OtherException "script outside the fragment of this host").

#[export] Instance demo_host : Host := {|
  py_eval := demo_py_eval;
  py_str := demo_py_str;
  py_exec := demo_py_exec;
  r_call_scoring := demo_r_call_scoring;
  ClientInfo := unit;
  generate_pdf_report := fun _ _ _ _ _ _ => Return "survey_data/report.pdf"
|}.

(** a question with only the required keys *)
Definition plain (n : Z) (var text : string) : Question :=
  {| order := n; variable := var; question := text; widget := "Textbox";
     widget_args := None; skip_if := None; valid_if := None;
     invalid_message := None |}.

Definition with_skip_if (c : string) (q : Question) : Question :=
  {| order := order q; variable := variable q; question := question q;
     widget := widget q; widget_args := widget_args q; skip_if := Some c;
     valid_if := valid_if q; invalid_message := invalid_message q |}.

Definition with_valid_if (c : string) (m : option string) (q : Question) : Question :=
  {| order := order q; variable := variable q; question := question q;
     widget := widget q; widget_args := widget_args q; skip_if := skip_if q;
     valid_if := Some c; invalid_message := m |}.

(** one question that asks for an adult's age and is skipped for the
    answer 10 *)
Definition adult_only : list Question :=
  [with_skip_if "age == 10"
     (with_valid_if "age >= 18" (Some "Must be adult") (plain 1 "age" "Age?"))].

(** one question that is skipped when its answer is a single space *)
Definition blank_skipper : list Question :=
  [with_skip_if "q1 == ' '" (plain 1 "q1" "Name?")].

(** Scenario B of the specification *)
Definition scenario_b : list Question :=
  [plain 1 "q1" "First?"; with_skip_if "q1 == 'no'" (plain 2 "q2" "Second?");
   plain 3 "q3" "Third?"].

End Demo.


(** ** Eligibility *)

Section Eligibility.
Context {host : Host}.

(** the question at index [i] is bypassed: it has a [skip_if] and the
    condition evaluates to true *)
Definition skipped_at (questions : list Question) (context : gmap string Value)
    (i : Z) : Prop :=
  0 <= i /\ exists q c, questions !! Z.to_nat i = Some q /\ skip_if q = Some c /\
                     evaluate_skip_if c context = Return true.

(** the question at index [i] is eligible: it has no [skip_if], or the
    condition evaluates to false *)
Definition eligible_at (questions : list Question) (context : gmap string Value)
    (i : Z) : Prop :=
  0 <= i /\ exists q, questions !! Z.to_nat i = Some q /\
    (skip_if q = None \/
     exists c, skip_if q = Some c /\ evaluate_skip_if c context = Return false).

(** the question at index [i] passes the test of the display loop: no
    [skip_if], an empty one, or one that evaluates to false *)
Definition displayable_at (questions : list Question) (context : gmap string Value)
    (i : Z) : Prop :=
  0 <= i /\ exists q, questions !! Z.to_nat i = Some q /\
                   is_condition_met q context = Return true.

(** the [skip_if] of [q], if it has one, evaluates without an exception *)
Definition evaluates (context : gmap string Value) (q : Question) : Prop :=
  forall c, skip_if q = Some c -> exists b, evaluate_skip_if c context = Return b.

(** the flags the row loop computes for index [i] *)
Definition row_visible (current_idx i : Z) (met : bool) : bool :=
  if bool_decide (i <= current_idx) then met else false.

Definition row_interactive (current_idx display_idx i : Z) (met : bool) : bool :=
  if bool_decide (i <= current_idx) then bool_decide (i = display_idx) && met
  else false.

End Eligibility.

(** ** More of PrevMed/utils/gui.py *)

Section GuiOther.
Context {host : Host}.
(** captured by the closure *)
Variable questions : list Question.
Variable scoring_language scoring_code : string.


End GuiOther.

Section Widgets.
(** [str.title()] and [hasattr(gr, name)] *)
Variable py_title : string -> string.
Variable gr_has : string -> bool.

(** [create_widget_for_question(question)]: the name of the Gradio class
    that is called and the keyword arguments it is called with. *)
Definition create_widget_for_question (q : Question) : string * gmap string Value :=
  let widget_type := py_title (widget q) in
  let widget_args := default ∅ (widget_args q) in
  let kwargs := delete "default" widget_args in
  let kwargs := <["interactive" := VBool true]> kwargs in
  let kwargs :=
    if bool_decide (is_Some (kwargs !! "scale")) then kwargs
    else <["scale" := VInt 1]> kwargs in
  let kwargs :=
    if bool_decide (is_Some (kwargs !! "label")) then kwargs
    else <["label" := VStr ("Q" +:+ pretty (order q) +:+ ": " +:+ question q)]> kwargs in
  let kwargs := <["elem_classes" := VList [VStr "adjusted-widget"]]> kwargs in
  if String.eqb widget_type "Radio" then ("Radio", kwargs)
  else if String.eqb widget_type "Slider" then ("Slider", kwargs)
  else if String.eqb widget_type "Number" then
    ("Number", <["precision" := VInt 0]> kwargs)
  else if String.eqb widget_type "Checkbox" then ("Checkbox", kwargs)
  else if String.eqb widget_type "Textbox" then ("Textbox", kwargs)
  else if gr_has widget_type then (widget_type, kwargs)
  else ("Textbox", kwargs).

End Widgets.

(** ** PrevMed/utils/io.py *)






Section Files.
(** [Path(filepath).suffix], [str.lower()] and the content of a file read
    as text *)
Variable path_suffix : string -> string.
Variable py_lower : string -> string.
Variable read_text : string -> outcome string.

Definition load_scoring_script (filepath : string) : outcome (string * string) :=
  let extension := py_lower (path_suffix filepath) in
  language ←
    (if bool_decide (extension ∈ [".r"; ".R"]) then Return "r"
     else if bool_decide (extension ∈ [".py"; ".python"]) then Return "python"
     else Raise (Exn ValueError
                   ("Extension de fichier non reconnue: '" +:+ extension
                    +:+ "'. Utilisez .R/.r pour R ou .py/.python pour Python")));
  code ← read_text filepath;
  Return (language : string, code).

End Files.

(** ** PrevMed/__main__.py *)

(** [s.split(",", 1)] for a string that has a comma: what is before the
    first comma, and what is after it. *)
Fixpoint split_first_comma (s : string) : option (string * string) :=
  match s with
  | EmptyString => None
  | String c rest =>
      if Ascii.eqb c ","%char then Some (EmptyString, rest)
      else
        match split_first_comma rest with
        | Some (before, after) => Some (String c before, after)
        | None => None
        end
  end.

(** the [--auth] argument of [cli_launcher]: the assertion that it has a
    comma, then the user name and the password *)
Definition parse_auth (auth : string) : outcome (string * string) :=
  match split_first_comma auth with
  | Some (authuser, authpass) => Return (authuser, authpass)
  | None => Raise (Exn OtherException "No comma found in auth argument")
  end.

(** [if args.auth:] and the [auth] argument of [demo.launch]: no
    authentication without the option or with an empty one *)
Definition launch_auth (auth : option string) : outcome (option (list (string * string))) :=
  match auth with
  | Some (String c rest) =>
      credentials ← parse_auth (String c rest);
      Return (Some [(credentials : string * string)])
  | _ => Return None
  end.

(** ** PrevMed/utils/pdf.py *)

(** [c in s] for a character *)
Fixpoint occurs (c : ascii) (s : string) : Prop :=
  match s with
  | EmptyString => False
  | String x rest => c = x \/ occurs c rest
  end.

(** [s.replace(old, new)]: the occurrences of [old] are replaced from left
    to right and do not overlap; [skip] counts the characters of a replaced
    occurrence that are still to be passed. *)
Fixpoint replace_scan (old new : string) (skip : nat) (s : string) : string :=
  match s with
  | EmptyString => EmptyString
  | String c rest =>
      match skip with
      | S k => replace_scan old new k rest
      | O =>
          if String.prefix old s then
            new +:+ replace_scan old new (String.length old - 1) rest
          else String c (replace_scan old new O rest)
      end
  end.

(** with an empty [old], [new] goes before every character and at the end *)
Fixpoint interleave (new s : string) : string :=
  match s with
  | EmptyString => new
  | String c rest => new +:+ String c (interleave new rest)
  end.

Definition py_replace (old new s : string) : string :=
  match old with
  | EmptyString => interleave new s
  | String _ _ => replace_scan old new O s
  end.

(** the chain of replacements that [generate_pdf_report] applies to a row
    label and to a column header *)
Definition sanitize_label (s : string) : string :=
  py_replace "ô" "o"
    (py_replace "à" "a"
       (py_replace "è" "e"
          (py_replace "é" "e"
             (py_replace " " "_" (py_replace "/" "_" s))))).

(** [d[k] = v] on a dictionary that keeps the order of insertion *)
Fixpoint dict_set {V} (k : string) (v : V) (d : list (string * V)) : list (string * V) :=
  match d with
  | [] => [(k, v)]
  | (k', v') :: rest =>
      if String.eqb k' k then (k, v) :: rest else (k', v') :: dict_set k v rest
  end.

Definition dict_keys {V} (d : list (string * V)) : list string := d.*1.

Definition dict_get {V} (k : string) (d : list (string * V)) : option V :=
  snd <$> List.find (fun kv => String.eqb kv.1 k) d.

(** [for i in range(1, len(row))]: one entry for every cell after the
    first *)
Fixpoint results_dict_cells (headers row : list string) (row_label : string)
    (indices : list Z) (results_dict : list (string * string))
  : outcome (list (string * string)) :=
  match indices with
  | [] => Return results_dict
  | i :: rest =>
      h ← py_index headers i;
      let col_header := sanitize_label h in
      let key := row_label +:+ "_" +:+ col_header in
      v ← py_index row i;
      results_dict_cells headers row row_label rest (dict_set key v results_dict)
  end.

(** [for row in results[1:]] *)
Fixpoint results_dict_rows (headers : list string) (rows : list (list string))
    (results_dict : list (string * string)) : outcome (list (string * string)) :=
  match rows with
  | [] => Return results_dict
  | row :: rest =>
      r0 ← py_index row 0;
      let row_label := sanitize_label r0 in
      d ← results_dict_cells headers row row_label
             (seqZ 1 (Z.of_nat (length row) - 1)) results_dict;
      results_dict_rows headers rest d
  end.

(** the conversion of the result table into [results_dict] *)
Definition results_dict (results : list (list string))
  : outcome (list (string * string)) :=
  match results with
  | [] => Return []
  | headers :: rows => results_dict_rows headers rows []
  end.

(** [safe_line]: a line of the scoring markdown with the markup characters
    escaped *)
Definition safe_line (line : string) : string :=
  py_replace ">" "&gt;" (py_replace "<" "&lt;" (py_replace "&" "&amp;" line)).

(** [s.endswith(suffix)] *)
Definition py_endswith (s suffix : string) : bool :=
  (String.length suffix <=? String.length s)%nat
  && String.eqb
       (String.substring (String.length s - String.length suffix)
                         (String.length suffix) s)
       suffix.

(** [l.index(x)], for an [x] that is in [l] *)
Fixpoint list_index (x : string) (l : list string) : option nat :=
  match l with
  | [] => None
  | y :: rest => if String.eqb y x then Some O else S <$> list_index x rest
  end.

(** [l.insert(i, x)] *)
Definition list_insert_at (i : nat) (x : string) (l : list string) : list string :=
  take i l ++ x :: drop i l.

Section CsvLog.
(** [hashlib.sha256(s.encode("utf-8")).hexdigest()],
    [json.dumps(value, sort_keys=True)] and
    [time.strftime("%Y-%m-%d %H:%M:%S", time.localtime(timestamp))] *)
Variable sha256_hexdigest : string -> string.
Variable json_dumps : Value -> exn + string.
Variable strftime : Z -> string.

(** the twelve first characters of a digest *)
Definition cropped (digest : string) : string := String.substring 0 12 digest.

(** [client_hashes]: one entry [key_hash] for every key of [client_info];
    a value that cannot be serialised is hashed as "NA" *)
Definition client_hash (reference_code : string) (value : Value) : string :=
  match (match value with
         | VStr s => inr s
         | _ => json_dumps value
         end) with
  | inr value_str => cropped (sha256_hexdigest (reference_code +:+ ":" +:+ value_str))
  | inl _ => "NA"
  end.

Definition client_hashes (reference_code : string)
    (client_info : option (list (string * Value))) : list (string * string) :=
  match client_info with
  | None => []
  | Some info =>
      foldl (fun acc kv => dict_set (kv.1 +:+ "_hash") (client_hash reference_code kv.2) acc)
            [] info
  end.

(** [row_data] *)
Definition csv_row_data (reference_code : string) (row_number timestamp : Z)
    (results : list (string * string)) (cropped_hash : string)
    (hashes : list (string * string)) : list (string * Value) :=
  let row_data :=
    [("reference_code", VStr reference_code); ("row_number", VInt row_number);
     ("timestamp_unix", VInt timestamp); ("datetime", VStr (strftime timestamp))] in
  let row_data := foldl (fun acc kv => dict_set kv.1 (VStr kv.2) acc) row_data results in
  let row_data := dict_set "answers_hash" (VStr cropped_hash) row_data in
  foldl (fun acc kv => dict_set kv.1 (VStr kv.2) acc) row_data hashes.

(** [for key in row_data.keys(): if key not in fieldnames: ...] *)
Fixpoint extend_fieldnames (keys fieldnames : list string) : list string :=
  match keys with
  | [] => fieldnames
  | key :: rest =>
      let fieldnames :=
        if bool_decide (key ∈ fieldnames) then fieldnames
        else if String.eqb key "answers_hash" || py_endswith key "_hash" then
          fieldnames ++ [key]
        else
          match list_index "answers_hash" fieldnames with
          | Some hash_idx => list_insert_at hash_idx key fieldnames
          | None => fieldnames ++ [key]
          end in
      extend_fieldnames rest fieldnames
  end.

(** [fieldnames] *)
Definition csv_fieldnames (file_exists : bool) (existing_headers : list string)
    (row_data : list (string * Value)) (results : list (string * string))
  : list string :=
  if file_exists && bool_decide (existing_headers ≠ []) then
    extend_fieldnames (dict_keys row_data) existing_headers
  else
    let fixed_cols := ["reference_code"; "row_number"; "timestamp_unix"; "datetime"] in
    let scoring_cols := dict_keys results in
    let hash_cols :=
      "answers_hash"
      :: List.filter (fun k => py_endswith k "_hash" && negb (String.eqb k "answers_hash"))
           (dict_keys row_data) in
    fixed_cols ++ scoring_cols ++ hash_cols.

(** What one call writes: the header, the earlier rows completed with empty
    cells, the new row, and whether the earlier file was moved to the
    archive. *)
Record csv_write : Type := {
  written_fieldnames : list string;
  written_rows : list (list (string * string));
  written_row : list (string * Value);
  rotated : bool
}.

(** The rows that are kept and the number of the new row: an earlier file
    with 1000 rows or more is moved to the archive and the count starts
    again, with the header of the earlier file.  The components are
    [existing_headers], [existing_rows], [row_number] and whether the file
    was rotated. *)
Definition csv_existing_state
    (existing : option (list string * list (list (string * string))))
  : list string * list (list (string * string)) * Z * bool :=
  match existing with
  | Some (headers, rows) =>
      if bool_decide (1000 <= length rows)%nat then (headers, [], 1, true)
      else (headers, rows, Z.of_nat (length rows) + 1, false)
  | None => ([], [], 1, false)
  end.

(** The body of [with lock:] in [append_to_csv_log].  [existing] is what
    [csv.DictReader] gave for the file ([None] when there is no file): its
    header and its rows; [answers] is [json_data["answers"]].  The lock is
    taken here; the handler of [Timeout], which writes to a fallback file,
    is not part of this definition. *)
Definition append_to_csv_log
    (existing : option (list string * list (list (string * string))))
    (reference_code : string) (timestamp : Z) (results : list (string * string))
    (answers : Value) (client_info : option (list (string * Value)))
  : outcome csv_write :=
  let file_exists := bool_decide (is_Some existing) in
  let '(existing_headers, existing_rows, row_number, is_rotated) :=
    csv_existing_state existing in
  answers_str ← of_sum (json_dumps answers);
  let cropped_hash := cropped (sha256_hexdigest answers_str) in
  let hashes := client_hashes reference_code client_info in
  let row_data :=
    csv_row_data reference_code row_number timestamp results cropped_hash hashes in
  let fieldnames := csv_fieldnames file_exists existing_headers row_data results in
  let complete_rows :=
    (fun existing_row : list (string * string) =>
       (fun field : string =>
          (field, default EmptyString (dict_get field existing_row)))
         <$> fieldnames) <$> existing_rows in
  Return {| written_fieldnames := fieldnames;
            written_rows := complete_rows;
            written_row := row_data;
            rotated := is_rotated |}.

End CsvLog.

(** a run of [append_to_csv_log] on given inputs, with the digest, the
    serialisation and the clock replaced by fixed texts *)
Definition demo_append_to_csv_log :=
  append_to_csv_log (fun s => s) (fun _ => inr "{}") (fun _ => "1970-01-01 00:00:00").

Import Demo.

(** * Properties *)

(** ** Outcomes *)

Lemma bind_Return {A B} (m : outcome A) (f : A -> outcome B) (b : B) :
  m ≫= f = Return b -> exists a, m = Return a /\ f a = Return b.
Proof. destruct m as [a| |]; simpl; intros E; try discriminate. eauto. Qed.

Lemma bind_not_Diverge {A B} (m : outcome A) (f : A -> outcome B) :
  m <> Diverge -> (forall a, f a <> Diverge) -> m ≫= f <> Diverge.
Proof. destruct m as [a| |]; simpl; intros Hm Hf; [apply Hf | discriminate | done]. Qed.

(** Take an equation [m ≫= f = Return b] apart. *)
Ltac bind_inv H :=
  let a := fresh "a" in
  let Ha := fresh "Ha" in
  apply bind_Return in H; destruct H as (a & Ha & H).

(** Run a bind whose first computation has returned. *)
Ltac bind_step :=
  match goal with
  | |- context [Return ?a ≫= ?f] => change (Return a ≫= f) with (f a); cbv beta zeta
  end.

Lemma returns_true {A} (m : outcome A) : returns m = true -> exists a, m = Return a.
Proof. destruct m as [a| |]; simpl; intros E; try discriminate. eauto. Qed.

Lemma py_index_Return {A} (l : list A) (i : Z) (x : A) :
  0 <= i -> (py_index l i = Return x <-> l !! Z.to_nat i = Some x).
Proof.
  intros Hi. unfold py_index.
  rewrite (bool_decide_eq_false_2 (i < 0)) by lia.
  rewrite (bool_decide_eq_true_2 (0 <= i)) by lia.
  destruct (l !! Z.to_nat i); split; intros E; congruence.
Qed.

Lemma py_index_not_Diverge {A} (l : list A) (i : Z) : py_index l i <> Diverge.
Proof.
  unfold py_index. repeat case_bool_decide; try discriminate;
    destruct (l !! _); discriminate.
Qed.

Lemma py_index_in_range {A} (l : list A) (i : Z) :
  0 <= i < Z.of_nat (length l) -> exists x, py_index l i = Return x.
Proof.
  intros Hi. assert (is_Some (l !! Z.to_nat i)) as [x Hx] by (apply lookup_lt_is_Some_2; lia).
  exists x. apply py_index_Return; [lia|done].
Qed.

(** ** The condition evaluator *)

Section LogicProperties.
Context {host : Host}.
Implicit Types (questions : list Question) (context : gmap string Value).

Lemma evaluate_skip_if_cases condition context :
  (exists v, py_eval condition context = inr v /\
             evaluate_skip_if condition context = Return (truthy v)) \/
  (exists e, py_eval condition context = inl e /\
             evaluate_skip_if condition context =
               Raise (Exn RuntimeError
                        ("Échec de l'évaluation de la condition '" +:+ condition
                         +:+ "': " +:+ exn_str e))).
Proof.
  unfold evaluate_skip_if. destruct (py_eval condition context) as [e|v]; simpl; eauto.
Qed.

Lemma evaluate_skip_if_not_Diverge condition context :
  evaluate_skip_if condition context <> Diverge.
Proof.
  destruct (evaluate_skip_if_cases condition context) as [(v & _ & ->)|(e & _ & ->)];
    discriminate.
Qed.

Lemma skipped_not_eligible questions context i :
  skipped_at questions context i -> eligible_at questions context i -> False.
Proof.
  intros (_ & q & c & Hq & Hc & Hs) (_ & q' & Hq' & [Hn|(c' & Hc' & He)]);
    congruence.
Qed.

(** ** The scan of [find_next_valid_question] *)

(** What a returning scan has seen: [k] skipped questions, then either an
    eligible one, or the end of the list on one side. *)
Lemma find_next_loop_spec questions context direction fuel idx r :
  find_next_loop fuel questions context direction idx = Return r ->
  exists k : nat,
    (forall m : nat, (m < k)%nat ->
                     skipped_at questions context (idx + Z.of_nat m * direction)) /\
    let j := idx + Z.of_nat k * direction in
    ((0 <= j < Z.of_nat (length questions) /\ eligible_at questions context j /\ r = j) \/
     (~ 0 <= j < Z.of_nat (length questions) /\
      r = if bool_decide (j >= Z.of_nat (length questions)) then j else 0)).
Proof.
  revert idx. induction fuel as [|fuel IH]; intros idx E; simpl in E; [discriminate|].
  case_bool_decide as Hrange.
  - bind_inv E. apply py_index_Return in Ha; [|lia].
    destruct (skip_if a) as [condition|] eqn:Hskip.
    + bind_inv E. destruct a0; simpl in E.
      * apply IH in E as (k & Hk & Hj). exists (S k). split.
        -- intros [|m] Hm.
           ++ replace (idx + Z.of_nat 0 * direction) with idx by lia.
              split; [lia|]. eauto 6.
           ++ replace (idx + Z.of_nat (S m) * direction)
                with (idx + direction + Z.of_nat m * direction) by lia.
              apply Hk. lia.
        -- replace (idx + Z.of_nat (S k) * direction)
             with (idx + direction + Z.of_nat k * direction) by lia.
           exact Hj.
      * injection E as <-. exists 0%nat. split; [intros m Hm; lia|].
        replace (idx + Z.of_nat 0 * direction) with idx by lia.
        left. split; [lia|]. split; [|done]. split; [lia|]. eauto 6.
    + injection E as <-. exists 0%nat. split; [intros m Hm; lia|].
      replace (idx + Z.of_nat 0 * direction) with idx by lia.
      left. split; [lia|]. split; [|done]. split; [lia|]. eauto.
  - injection E as <-. exists 0%nat. split; [intros m Hm; lia|].
    replace (idx + Z.of_nat 0 * direction) with idx by lia.
    right. split; done.
Qed.

(** A scan over skipped questions only leaves the list: at the end when it
    goes forward, at the front when it goes backward. *)
Lemma find_next_loop_forward_skipped questions context fuel idx :
  0 <= idx <= Z.of_nat (length questions) ->
  Z.of_nat fuel > Z.of_nat (length questions) - idx ->
  (forall i, idx <= i < Z.of_nat (length questions) -> skipped_at questions context i) ->
  find_next_loop fuel questions context 1 idx = Return (Z.of_nat (length questions)).
Proof.
  revert idx. induction fuel as [|fuel IH]; intros idx Hidx Hfuel Hall; [lia|].
  simpl. case_bool_decide as Hrange.
  - destruct (Hall idx) as (_ & q & c & Hq & Hc & Hs); [lia|].
    apply py_index_Return in Hq; [|lia]. rewrite Hq. simpl. rewrite Hc, Hs. simpl.
    apply IH; [lia|lia|]. intros i Hi. apply Hall. lia.
  - rewrite bool_decide_eq_true_2 by lia. f_equal. lia.
Qed.

Lemma find_next_loop_backward_skipped questions context fuel idx :
  -1 <= idx < Z.of_nat (length questions) ->
  Z.of_nat fuel > idx + 1 ->
  (forall i, 0 <= i <= idx -> skipped_at questions context i) ->
  find_next_loop fuel questions context (-1) idx = Return 0.
Proof.
  revert idx. induction fuel as [|fuel IH]; intros idx Hidx Hfuel Hall; [lia|].
  simpl. case_bool_decide as Hrange.
  - destruct (Hall idx) as (_ & q & c & Hq & Hc & Hs); [lia|].
    apply py_index_Return in Hq; [|lia]. rewrite Hq. simpl. rewrite Hc, Hs. simpl.
    apply IH; [lia|lia|]. intros i Hi. apply Hall. lia.
  - rewrite bool_decide_eq_false_2 by lia. done.
Qed.

(** With a direction other than 0 the loop ends within [len + 1] tests, so
    [Diverge] only stands for the loop that a direction of 0 never leaves. *)
Lemma find_next_loop_up_ends questions context direction fuel idx :
1 <= direction ->
(1 <= fuel)%nat ->
idx < 0 \/ Z.of_nat fuel > Z.of_nat (length questions) - idx ->
find_next_loop fuel questions context direction idx <> Diverge.
Proof.
intros Hdir. revert idx. induction fuel as [|fuel IH]; intros idx H1 Hfuel; [lia|].
simpl. case_bool_decide as Hrange; [|discriminate].
apply bind_not_Diverge; [apply py_index_not_Diverge|]. intros q.
destruct (skip_if q); [|discriminate].
apply bind_not_Diverge; [apply evaluate_skip_if_not_Diverge|].
intros [|]; simpl; [|discriminate]. apply IH; lia.
Qed.

Lemma find_next_loop_down_ends questions context direction fuel idx :
direction <= -1 ->
(1 <= fuel)%nat ->
idx >= Z.of_nat (length questions) \/ Z.of_nat fuel > idx + 1 ->
find_next_loop fuel questions context direction idx <> Diverge.
Proof.
intros Hdir. revert idx. induction fuel as [|fuel IH]; intros idx H1 Hfuel; [lia|].
simpl. case_bool_decide as Hrange; [|discriminate].
apply bind_not_Diverge; [apply py_index_not_Diverge|]. intros q.
destruct (skip_if q); [|discriminate].
apply bind_not_Diverge; [apply evaluate_skip_if_not_Diverge|].
intros [|]; simpl; [|discriminate]. apply IH; lia.
Qed.

(** [find_next_valid_question] always comes back when it is asked for the
    next or for the previous question. *)
Lemma find_next_valid_question_terminates current_idx questions context direction :
direction <> 0 ->
find_next_valid_question current_idx questions context direction <> Diverge.
Proof.
unfold find_next_valid_question. intros Hdir.
destruct (decide (1 <= direction)) as [Hup|Hdown].
- apply find_next_loop_up_ends; [done|lia|].
  destruct (decide (current_idx + direction < 0)); [by left|right]. lia.
- apply find_next_loop_down_ends; [lia|lia|].
  destruct (decide (current_idx + direction >= Z.of_nat (length questions)));
    [by left|right]. lia.
Qed.

End LogicProperties.

(** ** Claims about PrevMed/utils/logic.py *)

(** C9: [evaluate_skip_if] and [evaluate_valid_if] agree on every condition
    and every context: both return the same boolean, or both raise a
    [RuntimeError] (whose texts differ only in the words "valid_if"). *)
Theorem evaluate_skip_if_valid_if_agree {host : Host}
    (condition : string) (context : gmap string Value) :
  (exists b, evaluate_skip_if condition context = Return b /\
             evaluate_valid_if condition context = Return b) \/
  (exists e1 e2, evaluate_skip_if condition context = Raise e1 /\
                 evaluate_valid_if condition context = Raise e2 /\
                 exn_class e1 = RuntimeError /\ exn_class e2 = RuntimeError).
Proof.
  unfold evaluate_skip_if, evaluate_valid_if.
  destruct (py_eval condition context) as [e|v]; simpl.
  - right. eauto 6.
  - left. eauto.
Qed.

(** C1, as stated, fails: going back from index 1 when question 0 is skipped
    returns 0, the index of a question whose [skip_if] evaluates true. *)
Lemma find_next_valid_question_returns_skipped :
  ~ (forall (host : Host) (questions : list Question) (context : gmap string Value)
            (current_idx direction r : Z),
        direction = 1 \/ direction = -1 ->
        find_next_valid_question current_idx questions context direction = Return r ->
        ~ skipped_at questions context r).
Proof.
  intros claim.
  apply (claim demo_host
           [with_skip_if "q1 == 'no'" (plain 1 "q1" "First?"); plain 2 "q2" "Second?"]
           {["q1" := VStr "no"]} 1 (-1) 0).
  - by right.
  - vm_compute. reflexivity.
  - split; [lia|]. eexists _, _. repeat split; vm_compute; reflexivity.
Qed.

(** C1, amended: asked for the next or the previous question from an index
    [current_idx >= 0], [find_next_valid_question] returns the index of an
    eligible question (no [skip_if], or one that evaluates false), or an index
    at or past the end of the list, or, going backward when every question
    before [current_idx] is skipped, the index 0 whatever question 0 is. *)
Theorem find_next_valid_question_eligible {host : Host}
    (questions : list Question) (context : gmap string Value)
    (current_idx direction r : Z) :
  direction = 1 \/ direction = -1 ->
  0 <= current_idx ->
  find_next_valid_question current_idx questions context direction = Return r ->
  (r < Z.of_nat (length questions) /\ eligible_at questions context r) \/
  Z.of_nat (length questions) <= r \/
  (direction = -1 /\ r = 0 /\
   forall i, 0 <= i < current_idx -> skipped_at questions context i).
Proof.
  intros Hdir Hcur E. unfold find_next_valid_question in E.
  apply find_next_loop_spec in E as (k & Hk & [(Hj & He & ->)|(Hj & ->)]).
  - left. split; [lia|done].
  - case_bool_decide as Hend; [right; left; lia|].
    destruct Hdir as [-> | ->].
    + destruct k as [|k]; [lia|].
      destruct (Hk k) as (Hpos & _); lia.
    + right; right. split; [done|]. split; [done|].
      intros i Hi.
      replace i with (current_idx + -1 + Z.of_nat (Z.to_nat (current_idx - 1 - i)) * -1)
        by lia.
      apply Hk. lia.
Qed.

Lemma find_next_valid_question_eligible_witness :
  (1 < Z.of_nat (length scenario_b) /\
   eligible_at scenario_b {["q1" := VStr "yes"]} 1) \/
  Z.of_nat (length scenario_b) <= 1 \/
  (1 = -1 /\ 1 = 0 /\
   forall i, 0 <= i < 0 -> skipped_at scenario_b {["q1" := VStr "yes"]} i).
Proof.
  apply (find_next_valid_question_eligible scenario_b {["q1" := VStr "yes"]} 0 1 1).
  - by left.
  - lia.
  - vm_compute. reflexivity.
Defined.

(** C3: the boundary policy of [find_next_valid_question].  Forward from an
    index of the list (or from -1) with only skipped questions after it, the
    result is the question count, and forward from the last index it is the
    question count whatever the questions are.  Backward with only skipped
    questions before the index the result is 0, backward from 0 it is 0
    whatever the questions are, and no backward scan returns a negative
    index. *)
Theorem find_next_valid_question_boundaries {host : Host}
    (questions : list Question) (context : gmap string Value) (current_idx : Z) :
  (-1 <= current_idx < Z.of_nat (length questions) ->
   (forall i, current_idx < i < Z.of_nat (length questions) ->
              skipped_at questions context i) ->
   find_next_valid_question current_idx questions context 1
   = Return (Z.of_nat (length questions))) /\
  find_next_valid_question (Z.of_nat (length questions) - 1) questions context 1
  = Return (Z.of_nat (length questions)) /\
  (current_idx <= Z.of_nat (length questions) ->
   (forall i, 0 <= i < current_idx -> skipped_at questions context i) ->
   find_next_valid_question current_idx questions context (-1) = Return 0) /\
  find_next_valid_question 0 questions context (-1) = Return 0 /\
  (forall r, find_next_valid_question current_idx questions context (-1) = Return r ->
             0 <= r).
Proof.
  unfold find_next_valid_question. repeat split.
  - intros Hcur Hall. apply find_next_loop_forward_skipped; [lia|lia|].
    intros i Hi. apply Hall. lia.
  - apply find_next_loop_forward_skipped; [lia|lia|]. intros i Hi. lia.
  - intros Hcur Hall. destruct (decide (current_idx < 0)) as [Hneg|Hpos].
    + simpl. rewrite bool_decide_eq_false_2 by lia.
      rewrite bool_decide_eq_false_2 by lia. done.
    + apply find_next_loop_backward_skipped; [lia|lia|].
      intros i Hi. apply Hall. lia.
  - apply find_next_loop_backward_skipped; [lia|lia|]. intros i Hi. lia.
  - intros r E.
    apply find_next_loop_spec in E as (k & Hk & [(Hj & He & ->)|(Hj & ->)]); [lia|].
    case_bool_decide; lia.
Qed.

Lemma find_next_valid_question_boundaries_witness :
  find_next_valid_question 0 scenario_b {["q1" := VStr "no"]} (-1) = Return 0 /\
  find_next_valid_question 1
    [plain 1 "q1" "First?"; plain 2 "q2" "Second?"; with_skip_if "q1 == 'no'" (plain 3 "q3" "Third?")]
    {["q1" := VStr "no"]} 1 = Return 3 /\
  find_next_valid_question 1
    [with_skip_if "q1 == 'no'" (plain 1 "q1" "First?"); plain 2 "q2" "Second?"]
    {["q1" := VStr "no"]} (-1) = Return 0.
Proof.
  split; [|split].
  - apply (find_next_valid_question_boundaries scenario_b {["q1" := VStr "no"]} 0).
  - refine (proj1 (find_next_valid_question_boundaries _ _ 1) _ _).
    + simpl. lia.
    + simpl. intros i Hi. assert (i = 2) as -> by lia.
      split; [lia|]. eexists _, _. repeat split; vm_compute; reflexivity.
  - refine (proj1 (proj2 (proj2 (find_next_valid_question_boundaries _ _ 1))) _ _).
    + simpl. lia.
    + intros i Hi. assert (i = 0) as -> by lia.
      split; [lia|]. eexists _, _. repeat split; vm_compute; reflexivity.
Defined.

(** ** Progress accounting of [update_question_display] *)

Section ProgressProperties.
Context {host : Host}.
Implicit Types (questions qs : list Question) (context : gmap string Value).

Lemma count_valid_nonneg qs context n :
  count_valid qs context = Return n -> 0 <= n.
Proof.
  revert n. induction qs as [|q qs IH]; intros n E; simpl in E.
  - injection E as <-. lia.
  - bind_inv E. bind_inv E. injection E as <-.
    specialize (IH _ Ha0). destruct a; lia.
Qed.

(** The count over a list splits at any point; in particular the count
    over a prefix is defined whenever the count over the list is. *)
Lemma count_valid_app qs1 qs2 context n :
  count_valid (qs1 ++ qs2) context = Return n ->
  exists n1 n2, count_valid qs1 context = Return n1 /\
                count_valid qs2 context = Return n2 /\ n = n1 + n2.
Proof.
  revert n. induction qs1 as [|q qs1 IH]; intros n E; simpl in *.
  - exists 0, n. split; [done|]. split; [done|lia].
  - bind_inv E. bind_inv E. injection E as <-.
    destruct (IH _ Ha0) as (n1 & n2 & -> & E2 & ->). rewrite Ha. simpl.
    exists (if a then 1 + n1 else n1), n2. split; [done|]. split; [done|].
    destruct a; lia.
Qed.

Lemma count_valid_take qs context (k : nat) n :
  count_valid qs context = Return n ->
  exists m, count_valid (take k qs) context = Return m /\ m <= n.
Proof.
  intros E. rewrite <- (take_drop k qs) in E.
  apply count_valid_app in E as (n1 & n2 & E1 & E2 & ->).
  exists n1. split; [done|]. apply count_valid_nonneg in E2. lia.
Qed.

Lemma py_slice_to_take {A} (l : list A) (stop : Z) :
  exists k : nat, py_slice_to l stop = take k l /\
                  (0 <= stop -> k = Z.to_nat stop).
Proof.
  unfold py_slice_to. case_bool_decide; eexists; split; try reflexivity; lia.
Qed.

End ProgressProperties.

(** C8: for a fixed context and question set, [current_valid] (the count of
    eligible questions among the indices up to [display_idx]) does not
    decrease when [display_idx] increases, and it is at most [total_valid]
    (the count over all questions) for every [display_idx]. *)
Theorem progress_monotone {host : Host}
    (questions : list Question) (context : gmap string Value) :
  (forall d1 d2 n2,
      -1 <= d1 <= d2 ->
      current_valid questions d2 context = Return n2 ->
      exists n1, current_valid questions d1 context = Return n1 /\ n1 <= n2) /\
  (forall d t,
      total_valid questions context = Return t ->
      exists n, current_valid questions d context = Return n /\ n <= t).
Proof.
  unfold current_valid, total_valid. split.
  - intros d1 d2 n2 Hd E.
    destruct (py_slice_to_take questions (d1 + 1)) as (k1 & -> & Hk1).
    destruct (py_slice_to_take questions (d2 + 1)) as (k2 & E2 & Hk2).
    rewrite E2 in E.
    replace (take k1 questions) with (take k1 (take k2 questions)).
    + by apply count_valid_take.
    + rewrite take_take. f_equal. lia.
  - intros d t E.
    destruct (py_slice_to_take questions (d + 1)) as (k & -> & _).
    by apply count_valid_take.
Qed.

Lemma progress_monotone_witness :
  (exists n1, current_valid scenario_b 0 {["q1" := VStr "no"]} = Return n1 /\ n1 <= 2) /\
  (exists n, current_valid scenario_b 1 {["q1" := VStr "no"]} = Return n /\ n <= 2).
Proof.
  destruct (progress_monotone scenario_b {["q1" := VStr "no"]}) as [Hmono Htotal].
  split.
  - apply (Hmono 0 2 2); [lia|]. vm_compute. reflexivity.
  - apply (Htotal 1 2). vm_compute. reflexivity.
Defined.

(** ** The projection [update_question_display] *)

Section DisplayProperties.
Context {host : Host}.
Implicit Types (questions qs : list Question) (context : gmap string Value).
Implicit Types (updates u : gmap component update).

Lemma is_condition_met_not_Diverge q context : is_condition_met q context <> Diverge.
Proof.
  unfold is_condition_met. destruct (skip_if q) as [c|]; [|discriminate].
  destruct (negb (truthy (VStr c))); [discriminate|].
  apply bind_not_Diverge; [apply evaluate_skip_if_not_Diverge|discriminate].
Qed.

(** What the display loop has seen when it returns [d]: skipped questions
    from [idx] up to [d], and a question that passes its test at [d] unless
    [d] is outside the list. *)
Lemma display_loop_spec questions context fuel idx d :
  display_loop questions fuel context idx = Return d ->
  idx <= d /\
  (forall i, idx <= i < d -> skipped_at questions context i) /\
  (0 <= d < Z.of_nat (length questions) -> displayable_at questions context d) /\
  (idx <= Z.of_nat (length questions) -> d <= Z.of_nat (length questions)) /\
  (~ 0 <= idx < Z.of_nat (length questions) -> d = idx).
Proof.
  revert idx. induction fuel as [|fuel IH]; intros idx E; simpl in E; [discriminate|].
  case_bool_decide as Hrange.
  - bind_inv E. apply py_index_Return in Ha; [|lia].
    assert (Hhere : is_condition_met a context = Return true ->
                    displayable_at questions context idx).
    { intros Hmet. split; [lia|]. eauto. }
    unfold is_condition_met in Hhere.
    destruct (skip_if a) as [c|] eqn:Hskip.
    + destruct (negb (truthy (VStr c))) eqn:Hc.
      * injection E as <-.
        split; [lia|]. split; [intros i Hi; lia|]. split; [auto|].
        split; intros; lia.
      * bind_inv E. rewrite Ha0 in Hhere. destruct a0; simpl in E.
        -- apply IH in E as (Hle & Hskipped & Hshown & Hend & Hout).
           split; [lia|]. split; [|split; [done|split; intros; lia]].
           intros i Hi. destruct (decide (i = idx)) as [->|Hne].
           ++ split; [lia|]. eauto 6.
           ++ apply Hskipped. lia.
        -- injection E as <-.
           split; [lia|]. split; [intros i Hi; lia|]. split; [auto|].
           split; intros; lia.
    + injection E as <-.
      split; [lia|]. split; [intros i Hi; lia|]. split; [auto|].
      split; intros; lia.
  - injection E as <-.
    split; [lia|]. split; [intros i Hi; lia|]. split; [intros; lia|].
    split; intros; lia.
Qed.

Lemma display_loop_ends questions context fuel idx :
  (1 <= fuel)%nat ->
  idx < 0 \/ Z.of_nat fuel > Z.of_nat (length questions) - idx ->
  display_loop questions fuel context idx <> Diverge.
Proof.
  revert idx. induction fuel as [|fuel IH]; intros idx H1 Hfuel; [lia|].
  simpl. case_bool_decide as Hrange; [|discriminate].
  apply bind_not_Diverge; [apply py_index_not_Diverge|]. intros q.
  destruct (skip_if q) as [c|]; [|discriminate].
  destruct (negb (truthy (VStr c))); [discriminate|].
  apply bind_not_Diverge; [apply evaluate_skip_if_not_Diverge|].
  intros [|]; simpl; [|discriminate]. apply IH; lia.
Qed.

(** Every [skip_if] of the list has been evaluated when the count returns. *)
Lemma count_valid_evaluates qs context n (i : nat) q c :
  count_valid qs context = Return n ->
  qs !! i = Some q -> skip_if q = Some c ->
  exists b, evaluate_skip_if c context = Return b.
Proof.
  revert n i. induction qs as [|q0 qs IH]; intros n i E Hq Hc; [done|].
  simpl in E. bind_inv E. bind_inv E. destruct i as [|i]; simpl in Hq.
  - injection Hq as ->. rewrite Hc in Ha. bind_inv Ha. eauto.
  - eauto.
Qed.

Lemma count_valid_not_Diverge qs context : count_valid qs context <> Diverge.
Proof.
  induction qs as [|q qs IH]; simpl; [discriminate|].
  apply bind_not_Diverge.
  - destruct (skip_if q); [|discriminate].
    apply bind_not_Diverge; [apply evaluate_skip_if_not_Diverge|discriminate].
  - intros ok. apply bind_not_Diverge; [done|discriminate].
Qed.

Lemma build_context_not_Diverge i qs args context :
  build_context i qs args context <> Diverge.
Proof.
  revert i context. induction qs as [|q qs IH]; intros i context; simpl; [discriminate|].
  apply bind_not_Diverge; [apply py_index_not_Diverge|]. intros a. apply IH.
Qed.

Lemma update_rows_not_Diverge questions indices current_idx display_idx args context u :
  update_rows questions indices current_idx display_idx args context u <> Diverge.
Proof.
  revert u. induction indices as [|i indices IH]; intros u; simpl; [discriminate|].
  apply bind_not_Diverge; [apply py_index_not_Diverge|]. intros q.
  apply bind_not_Diverge; [apply is_condition_met_not_Diverge|]. intros met.
  apply bind_not_Diverge; [apply py_index_not_Diverge|]. intros a. apply IH.
Qed.

(** The projection always comes back: with updates, or with an exception. *)
Lemma update_question_display_terminates questions current_idx args :
  update_question_display questions current_idx args <> Diverge.
Proof.
  unfold update_question_display.
  apply bind_not_Diverge; [apply build_context_not_Diverge|]. intros context.
  apply bind_not_Diverge.
  { apply display_loop_ends; [lia|].
    destruct (decide (current_idx < 0)); [by left|right]. lia. }
  intros d. apply bind_not_Diverge; [apply update_rows_not_Diverge|]. intros u.
  apply bind_not_Diverge; [apply count_valid_not_Diverge|]. intros t.
  apply bind_not_Diverge; [apply count_valid_not_Diverge|]. discriminate.
Qed.

End DisplayProperties.

Section RowProperties.
Context {host : Host}.
Implicit Types (questions qs : list Question) (context : gmap string Value).
Implicit Types (updates u : gmap component update).

Lemma seqZ_split_later (a n : Z) (l1 l2 : list Z) (i j : Z) :
  seqZ a n = l1 ++ i :: l2 -> j ∈ seqZ a n -> i < j -> j ∈ l2.
Proof.
  intros Hsplit Hj Hlt. rewrite Hsplit in Hj.
  apply elem_of_app in Hj as [Hj|Hj].
  - apply list_elem_of_lookup in Hj as [p Hp].
    pose proof (lookup_lt_Some _ _ _ Hp) as Hlen.
    apply (lookup_app_l_Some _ (i :: l2)) in Hp. rewrite <- Hsplit in Hp.
    apply lookup_seqZ in Hp as [-> _].
    assert (seqZ a n !! length l1 = Some i) as Hi
        by (rewrite Hsplit; apply list_lookup_middle; done).
    apply lookup_seqZ in Hi as [-> _]. lia.
  - apply elem_of_cons in Hj as [->|Hj]; [lia|done].
Qed.

(** The entries the row loop leaves for a variable: untouched when no
    visited question has that variable, otherwise the flags computed at the
    last visited index that has it. *)
Lemma update_rows_spec questions indices current_idx display_idx args context u0 u :
  update_rows questions indices current_idx display_idx args context u0 = Return u ->
  forall var,
    (u !! Row var = u0 !! Row var /\ u !! Widget var = u0 !! Widget var /\
     forall i q, i ∈ indices -> py_index questions i = Return q -> variable q <> var)
    \/
    (exists l1 i l2 q met a,
        indices = l1 ++ i :: l2 /\
        py_index questions i = Return q /\ variable q = var /\
        is_condition_met q context = Return met /\
        py_index args i = Return a /\
        u !! Row var
        = Some (GrUpdate (Some (row_visible current_idx i met)) None None) /\
        u !! Widget var
        = Some (GrUpdate None (Some (row_interactive current_idx display_idx i met))
                         (Some a)) /\
        forall j q', j ∈ l2 -> py_index questions j = Return q' -> variable q' <> var).
Proof.
  revert u0. induction indices as [|i indices IH]; intros u0 E var; simpl in E.
  - injection E as <-. left. split; [done|]. split; [done|].
    intros i q Hi. by apply elem_of_nil in Hi.
  - bind_inv E. rename a into q, Ha into Hq.
    bind_inv E. rename a into met, Ha into Hmet.
    bind_inv E. rename a into v, Ha into Hv.
    destruct (IH _ E var) as [(HR & HW & Hnone)|Hlater].
    + destruct (decide (variable q = var)) as [Heq|Hne].
      * right. exists [], i, indices, q, met, v. subst var.
        split; [done|]. split; [done|]. split; [done|]. split; [done|].
        split; [done|]. split; [|split; [|done]].
        -- rewrite HR. rewrite lookup_insert_ne by discriminate.
           by rewrite lookup_insert_eq.
        -- rewrite HW. by rewrite lookup_insert_eq.
      * left. split; [|split].
        -- rewrite HR. rewrite lookup_insert_ne by discriminate.
           rewrite lookup_insert_ne by congruence. done.
        -- rewrite HW. rewrite lookup_insert_ne by congruence.
           rewrite lookup_insert_ne by discriminate. done.
        -- intros j q' Hj Hq'. apply elem_of_cons in Hj as [->|Hj]; [|eauto].
           congruence.
    + right. destruct Hlater as (l1 & i' & l2 & q' & met' & a' & -> & Hrest).
      exists (i :: l1), i', l2, q', met', a'. split; [done|exact Hrest].
Qed.

(** The parts of a returning [update_question_display]. *)
Lemma update_question_display_inv questions current_idx args u :
  update_question_display questions current_idx args = Return u ->
  exists context d rows total current,
    build_context 0 questions args ∅ = Return context /\
    display_loop questions (S (length questions)) context current_idx = Return d /\
    update_rows questions
      (seqZ (Z.max 0 (d - 1)) (Z.of_nat (length questions) - Z.max 0 (d - 1)))
      current_idx d args context ∅ = Return rows /\
    total_valid questions context = Return total /\
    current_valid questions d context = Return current /\
    u = <[current_question_idx := StateValue d]>
          (<[next_btn :=
               GrUpdate (Some (bool_decide (d < Z.of_nat (length questions)))) None
                        (Some (VStr (next_btn_label questions d current total)))]>
             (<[prev_btn :=
                  GrUpdate (Some (bool_decide (d > 0)
                                  && bool_decide (d < Z.of_nat (length questions))))
                           None None]> rows)).
Proof.
  unfold update_question_display. intros E.
  bind_inv E. rename a into context.
  bind_inv E. rename a into d.
  bind_inv E. rename a into rows.
  bind_inv E. rename a into total.
  bind_inv E. rename a into current.
  injection E as <-. exists context, d, rows, total, current. done.
Qed.

End RowProperties.

Section ResolveProperties.
Context {host : Host}.
Implicit Types (questions qs : list Question) (context : gmap string Value).

(** [eval] of the empty string is a syntax error in Python, so an empty
    [skip_if] makes [evaluate_skip_if] raise. *)
Lemma evaluate_skip_if_empty context :
  (forall ctx, exists e, py_eval EmptyString ctx = inl e) ->
  exists e, evaluate_skip_if EmptyString context = Raise e.
Proof.
  intros Hempty. destruct (Hempty context) as [e He].
  unfold evaluate_skip_if. rewrite He. simpl. eauto.
Qed.

(** Once the count over all questions has returned, passing the test of
    the display loop is the same as being eligible. *)
Lemma displayable_eligible questions context total i :
  (forall ctx, exists e, py_eval EmptyString ctx = inl e) ->
  total_valid questions context = Return total ->
  displayable_at questions context i -> eligible_at questions context i.
Proof.
  intros Hempty Htotal (Hi & q & Hq & Hmet). split; [done|].
  exists q. split; [done|]. unfold is_condition_met in Hmet.
  destruct (skip_if q) as [c|] eqn:Hc; [right|by left].
  exists c. split; [done|].
  destruct (count_valid_evaluates _ _ _ _ _ _ Htotal Hq Hc) as [b Hb].
  destruct (negb (truthy (VStr c))) eqn:Htruthy.
  - assert (c = EmptyString) as ->.
    { unfold truthy in Htruthy. apply negb_true_iff, negb_false_iff in Htruthy.
      by apply String.eqb_eq. }
    destruct (evaluate_skip_if_empty context Hempty) as [e He]. congruence.
  - rewrite Hb in Hmet. simpl in Hmet. injection Hmet as Hmet.
    apply negb_true_iff in Hmet. by subst b.
Qed.

Lemma row_interactive_true current_idx display_idx i met :
  row_interactive current_idx display_idx i met = true ->
  i <= current_idx /\ i = display_idx /\ met = true.
Proof.
  unfold row_interactive. case_bool_decide as Hle; [|discriminate].
  intros Hb. apply andb_true_iff in Hb as [H1 H2].
  apply bool_decide_eq_true in H1. done.
Qed.

End ResolveProperties.

Section ReturnProperties.
Context {host : Host}.
Implicit Types (questions qs : list Question) (context : gmap string Value).

(** A forward scan over skipped questions stops at the first eligible one. *)
Lemma find_next_loop_forward_reaches questions context fuel idx r :
  0 <= idx <= r -> r < Z.of_nat (length questions) ->
  Z.of_nat fuel > r - idx ->
  (forall i, idx <= i < r -> skipped_at questions context i) ->
  eligible_at questions context r ->
  find_next_loop fuel questions context 1 idx = Return r.
Proof.
  revert idx. induction fuel as [|fuel IH]; intros idx Hidx Hr Hfuel Hall Hel; [lia|].
  simpl. rewrite bool_decide_eq_true_2 by lia.
  destruct (decide (idx = r)) as [->|Hne].
  - destruct Hel as (_ & q & Hq & Hel).
    apply py_index_Return in Hq; [|lia]. rewrite Hq. simpl.
    destruct Hel as [->|(c & -> & ->)]; done.
  - destruct (Hall idx) as (_ & q & c & Hq & Hc & Hs); [lia|].
    apply py_index_Return in Hq; [|lia]. rewrite Hq. simpl. rewrite Hc, Hs. simpl.
    apply IH; [lia|lia|lia| |done]. intros i Hi. apply Hall. lia.
Qed.

Lemma is_condition_met_returns q context :
  evaluates context q -> exists met, is_condition_met q context = Return met.
Proof.
  intros Hev. unfold is_condition_met. destruct (skip_if q) as [c|] eqn:Hc; [|eauto].
  destruct (negb (truthy (VStr c))); [eauto|].
  destruct (Hev c Hc) as [b ->]. simpl. eauto.
Qed.

Lemma display_loop_no_Raise questions context fuel idx e :
  Forall (evaluates context) questions ->
  display_loop questions fuel context idx <> Raise e.
Proof.
  intros Hall. revert idx. induction fuel as [|fuel IH]; intros idx; simpl; [discriminate|].
  case_bool_decide as Hrange; [|discriminate].
  destruct (py_index_in_range questions idx Hrange) as [q Hq]. rewrite Hq. simpl.
  apply py_index_Return in Hq; [|lia].
  pose proof (Forall_lookup_1 _ _ _ _ Hall Hq) as Hev.
  destruct (skip_if q) as [c|] eqn:Hc; [|discriminate].
  destruct (negb (truthy (VStr c))); [discriminate|].
  destruct (Hev c Hc) as [b ->]. simpl. destruct b; simpl; [apply IH|discriminate].
Qed.

Lemma update_rows_returns questions indices current_idx display_idx args context u0 :
  Forall (evaluates context) questions ->
  Forall (fun i => 0 <= i < Z.of_nat (length questions) /\
                   i < Z.of_nat (length args)) indices ->
  exists u,
    update_rows questions indices current_idx display_idx args context u0 = Return u.
Proof.
  intros Hall Hidx. revert u0.
  induction Hidx as [|i indices [Hq Ha] _ IH]; intros u0; simpl; [eauto|].
  destruct (py_index_in_range questions i Hq) as [q Eq]. rewrite Eq. simpl.
  apply py_index_Return in Eq; [|lia].
  pose proof (Forall_lookup_1 _ _ _ _ Hall Eq) as Hev.
  destruct (is_condition_met_returns _ _ Hev) as [met ->]. simpl.
  destruct (py_index_in_range args i) as [a ->]; [lia|]. simpl. apply IH.
Qed.

Lemma count_valid_returns qs context :
  Forall (evaluates context) qs -> exists n, count_valid qs context = Return n.
Proof.
  induction 1 as [|q qs Hev _ [n IH]]; simpl; [eauto|].
  destruct (skip_if q) as [c|] eqn:Hc.
  - destruct (Hev c Hc) as [b ->]. simpl. rewrite IH. simpl. eauto.
  - simpl. rewrite IH. simpl. eauto.
Qed.

Lemma build_context_length i qs args context0 context :
  0 <= i ->
  build_context i qs args context0 = Return context ->
  forall j, i <= j < i + Z.of_nat (length qs) -> j < Z.of_nat (length args).
Proof.
  revert i context0. induction qs as [|q qs IH]; intros i context0 Hi E j Hj;
    simpl in E.
  - simpl in Hj. lia.
  - bind_inv E. apply py_index_Return in Ha; [|lia].
    apply lookup_lt_Some in Ha.
    change (length (q :: qs)) with (S (length qs)) in Hj.
    destruct (decide (j = i)) as [->|Hne]; [lia|].
    apply (IH (i + 1) _ ltac:(lia) E). lia.
Qed.

(** The projection returns its updates whenever the widget values give a
    context and every [skip_if] evaluates in it. *)
Lemma update_question_display_returns questions current_idx args context :
  build_context 0 questions args ∅ = Return context ->
  Forall (evaluates context) questions ->
  exists u, update_question_display questions current_idx args = Return u.
Proof.
  intros Hctx Hall. unfold update_question_display. rewrite Hctx. bind_step.
  pose proof (build_context_length 0 _ _ _ _ ltac:(lia) Hctx) as Hargs.
  destruct (display_loop questions (S (length questions)) context current_idx)
    as [d|e|] eqn:Hd.
  - bind_step.
    destruct (update_rows_returns questions
                (seqZ (Z.max 0 (d - 1)) (Z.of_nat (length questions) - Z.max 0 (d - 1)))
                current_idx d args context ∅ Hall) as [rows ->].
    { apply Forall_forall. intros i Hi. apply elem_of_seqZ in Hi.
      split; [lia|]. apply Hargs. lia. }
    bind_step. unfold total_valid, current_valid.
    destruct (count_valid_returns questions context Hall) as [total ->]. bind_step.
    destruct (py_slice_to_take questions (d + 1)) as (k & -> & _).
    destruct (count_valid_returns (take k questions) context) as [current ->];
      [by apply Forall_take|].
    bind_step. eauto.
  - by apply display_loop_no_Raise in Hd.
  - apply display_loop_ends in Hd; [done|lia|].
    destruct (decide (current_idx < 0)); [by left|right]. lia.
Qed.

End ReturnProperties.

(** C10: [update_question_display] resolves the index it is given before it
    projects.  For an index of [0..N] and a call that returns, the index
    stored in the navigation state is the least index from the given one on
    whose question is eligible (no [skip_if], or one that evaluates false),
    or N when there is none; a widget is marked interactive only when it is
    the widget of the question at that resolved index; and for a question at
    an index greater than the given one, every row update hides it, every
    widget update makes it non-interactive, and the row update is there for
    every index from one before the resolved index on.  (The first hypothesis
    is Python's: evaluating the empty string is a syntax error.) *)
Theorem update_question_display_resolves {host : Host}
    (questions : list Question) (current_idx : Z) (args : list Value)
    (u : gmap component update) :
  (forall ctx, exists e, py_eval EmptyString ctx = inl e) ->
  0 <= current_idx <= Z.of_nat (length questions) ->
  update_question_display questions current_idx args = Return u ->
  exists context d,
    build_context 0 questions args ∅ = Return context /\
    u !! current_question_idx = Some (StateValue d) /\
    current_idx <= d <= Z.of_nat (length questions) /\
    (forall i, current_idx <= i < d -> skipped_at questions context i) /\
    (d < Z.of_nat (length questions) -> eligible_at questions context d) /\
    (forall var a,
        u !! Widget var = Some (GrUpdate None (Some true) a) ->
        d = current_idx /\
        exists q, questions !! Z.to_nat d = Some q /\ variable q = var) /\
    (forall i q,
        current_idx < i -> questions !! Z.to_nat i = Some q ->
        (u !! Row (variable q) = None \/
         u !! Row (variable q) = Some (GrUpdate (Some false) None None)) /\
        (u !! Widget (variable q) = None \/
         exists a, u !! Widget (variable q) = Some (GrUpdate None (Some false) (Some a))) /\
        (d - 1 <= i -> u !! Row (variable q) = Some (GrUpdate (Some false) None None))).
Proof.
  intros Hempty Hidx E.
  apply update_question_display_inv in E
    as (context & d & rows & total & current & Hctx & Hd & Hrows & Htotal & Hcur & ->).
  apply display_loop_spec in Hd as (Hle & Hskipped & Hshown & Hend & _).
  exists context, d.
  split; [done|]. split; [by rewrite lookup_insert_eq|].
  split; [lia|]. split; [done|].
  split; [intros Hlt; eapply displayable_eligible; eauto; apply Hshown; lia|].
  pose proof (update_rows_spec _ _ _ _ _ _ _ _ Hrows) as Hspec.
  split.
  - intros var a Hw. do 3 (rewrite lookup_insert_ne in Hw by discriminate).
    destruct (Hspec var) as [(_ & HW & _)|
                             (l1 & i & l2 & q & met & v & _ & Hq & Hvar & _ & _ & _ & HW & _)].
    + rewrite HW, lookup_empty in Hw. discriminate.
    + rewrite HW in Hw. injection Hw as Hint _.
      apply row_interactive_true in Hint as (Hi & -> & _).
      split; [lia|]. exists q. split; [|done]. apply py_index_Return in Hq; [done|lia].
  - intros i q Hi Hq.
    assert (Hlen : i < Z.of_nat (length questions)).
    { apply lookup_lt_Some in Hq. lia. }
    assert (Hpy : py_index questions i = Return q) by (apply py_index_Return; [lia|done]).
    do 3 (rewrite lookup_insert_ne by discriminate).
    do 3 (rewrite lookup_insert_ne by discriminate).
    destruct (Hspec (variable q))
      as [(HR & HW & Hnone)|
          (l1 & i0 & l2 & q0 & met & v & Hsplit & Hq0 & Hvar & _ & _ & HR & HW & Hlast)].
    + rewrite HR, HW, !lookup_empty. split; [by left|]. split; [by left|].
      intros Hwin. exfalso. apply (Hnone i q); [|done|done].
      apply elem_of_seqZ. lia.
    + assert (Hi0 : i0 ∈ seqZ (Z.max 0 (d - 1))
                          (Z.of_nat (length questions) - Z.max 0 (d - 1))).
      { rewrite Hsplit. apply elem_of_app. right. apply elem_of_cons. by left. }
      apply elem_of_seqZ in Hi0.
      assert (Hafter : current_idx < i0).
      { destruct (decide (current_idx < i0)) as [|Hbefore]; [done|]. exfalso.
        apply (Hlast i q); [|done|done].
        eapply seqZ_split_later; [exact Hsplit| |lia].
        apply elem_of_seqZ. lia. }
      assert (Hvis : row_visible current_idx i0 met = false).
      { unfold row_visible. by rewrite bool_decide_eq_false_2 by lia. }
      assert (Hint : row_interactive current_idx d i0 met = false).
      { unfold row_interactive. by rewrite bool_decide_eq_false_2 by lia. }
      rewrite HR, HW, Hvis, Hint. split; [by right|]. split; [right; eauto|done].
Qed.

Lemma update_question_display_resolves_witness :
  exists u context d,
    update_question_display scenario_b 1 [VStr "no"; VNone; VNone] = Return u /\
    build_context 0 scenario_b [VStr "no"; VNone; VNone] ∅ = Return context /\
    u !! current_question_idx = Some (StateValue d) /\
    1 <= d <= 3 /\
    (forall i, 1 <= i < d -> skipped_at scenario_b context i) /\
    (d < 3 -> eligible_at scenario_b context d).
Proof.
  destruct (returns_true
              (update_question_display scenario_b 1 [VStr "no"; VNone; VNone]))
    as [u Hu]; [vm_compute; reflexivity|].
  exists u.
  destruct (update_question_display_resolves scenario_b 1 [VStr "no"; VNone; VNone] u)
    as (context & d & Hctx & Hstate & Hrange & Hskipped & Heligible & _).
  - intros ctx. eexists. vm_compute. reflexivity.
  - simpl. lia.
  - exact Hu.
  - exists context, d.
    split; [exact Hu|]. split; [exact Hctx|]. split; [exact Hstate|].
    split; [simpl in Hrange; lia|]. split; [exact Hskipped|exact Heligible].
Defined.

(** ** Scenario B: a skipped second question *)

(** C2, as stated, fails: in Scenario B the scan from index 0 lands on index
    2, but the progress computed there is not 1 of 2. *)
Lemma scenario_b_progress_is_not_1_of_2 :
  ~ (find_next_valid_question 0 scenario_b
       {["q1" := VStr "no"; "q2" := VNone; "q3" := VNone]} 1 = Return 2 /\
     current_valid scenario_b 2 {["q1" := VStr "no"; "q2" := VNone; "q3" := VNone]}
     = Return 1 /\
     total_valid scenario_b {["q1" := VStr "no"; "q2" := VNone; "q3" := VNone]}
     = Return 2).
Proof.
  intros (_ & Hcurrent & _). vm_compute in Hcurrent. discriminate.
Qed.

(** C2, amended: when the question at index 1 has the [skip_if]
    [q1 == 'no'], the other two have none, and the context built from the
    widget values maps [q1] to ['no'], [find_next_valid_question] from index
    0 forward returns 2, and [update_question_display] at index 2 stays at 2
    and reports the progress 2 of 2: both eligible questions, 0 and 2, lie
    in the indices up to 2.  (The last hypothesis is Python's meaning of the
    comparison.) *)
Theorem scenario_b_lands_on_2_with_progress_2_of_2 {host : Host}
    (q0 q1 q2 : Question) (a0 a1 a2 : Value) (context : gmap string Value) :
  skip_if q0 = None -> skip_if q1 = Some "q1 == 'no'" -> skip_if q2 = None ->
  build_context 0 [q0; q1; q2] [a0; a1; a2] ∅ = Return context ->
  context !! "q1" = Some (VStr "no") ->
  (forall ctx, ctx !! "q1" = Some (VStr "no") ->
               py_eval "q1 == 'no'" ctx = inr (VBool true)) ->
  find_next_valid_question 0 [q0; q1; q2] context 1 = Return 2 /\
  total_valid [q0; q1; q2] context = Return 2 /\
  current_valid [q0; q1; q2] 2 context = Return 2 /\
  exists u, update_question_display [q0; q1; q2] 2 [a0; a1; a2] = Return u /\
            u !! current_question_idx = Some (StateValue 2) /\
            u !! next_btn
            = Some (GrUpdate (Some true) None
                             (Some (VStr "Suivant → (Question 2 / 2)"))).
Proof.
  intros H0 H1 H2 Hctx Hno Hpy.
  assert (Hskip : evaluate_skip_if "q1 == 'no'" context = Return true).
  { unfold evaluate_skip_if. rewrite (Hpy _ Hno). reflexivity. }
  assert (Htotal : total_valid [q0; q1; q2] context = Return 2).
  { unfold total_valid. simpl. rewrite H0, H1, H2. simpl. rewrite Hskip. reflexivity. }
  assert (Hcurrent : current_valid [q0; q1; q2] 2 context = Return 2).
  { unfold current_valid.
    change (py_slice_to [q0; q1; q2] (2 + 1)) with [q0; q1; q2]. exact Htotal. }
  assert (Helig : eligible_at [q0; q1; q2] context 2).
  { split; [lia|]. exists q2. split; [done|by left]. }
  split; [|split; [done|split; [done|]]].
  - unfold find_next_valid_question.
    apply find_next_loop_forward_reaches; simpl; try lia; [|done].
    intros i Hi. assert (i = 1) as -> by lia. split; [lia|]. exists q1. eauto.
  - destruct (update_question_display_returns [q0; q1; q2] 2 [a0; a1; a2] context Hctx)
      as [u Hu].
    { repeat constructor; intros c Hc; [congruence| |congruence].
      rewrite H1 in Hc. injection Hc as <-. eauto. }
    exists u. split; [done|].
    apply update_question_display_inv in Hu
      as (context' & d & rows & total & current & Hctx' & Hd & _ & Ht & Hc & ->).
    rewrite Hctx in Hctx'. injection Hctx' as <-.
    apply display_loop_spec in Hd as (Hle & Hskipped & _ & Hend & _).
    assert (d = 2) as ->.
    { simpl in Hend. destruct (decide (d = 2)) as [|Hne]; [done|].
      destruct (Hskipped 2) as (_ & q & c & Hq & Hc' & _); [lia|].
      simpl in Hq. congruence. }
    rewrite Htotal in Ht. injection Ht as <-.
    rewrite Hcurrent in Hc. injection Hc as <-.
    split; [by rewrite lookup_insert_eq|].
    rewrite lookup_insert_ne by discriminate. rewrite lookup_insert_eq.
    reflexivity.
Qed.

Lemma scenario_b_lands_on_2_with_progress_2_of_2_witness :
  find_next_valid_question 0 scenario_b
    {["q1" := VStr "no"; "q2" := VNone; "q3" := VNone]} 1 = Return 2 /\
  total_valid scenario_b {["q1" := VStr "no"; "q2" := VNone; "q3" := VNone]} = Return 2 /\
  current_valid scenario_b 2 {["q1" := VStr "no"; "q2" := VNone; "q3" := VNone]}
  = Return 2 /\
  exists u, update_question_display scenario_b 2 [VStr "no"; VNone; VNone] = Return u /\
            u !! current_question_idx = Some (StateValue 2) /\
            u !! next_btn
            = Some (GrUpdate (Some true) None
                             (Some (VStr "Suivant → (Question 2 / 2)"))).
Proof.
  apply (scenario_b_lands_on_2_with_progress_2_of_2
           (plain 1 "q1" "First?") (with_skip_if "q1 == 'no'" (plain 2 "q2" "Second?"))
           (plain 3 "q3" "Third?") (VStr "no") VNone VNone).
  - reflexivity.
  - reflexivity.
  - reflexivity.
  - reflexivity.
  - reflexivity.
  - intros ctx Hctx. vm_compute in Hctx |- *. rewrite Hctx. reflexivity.
Defined.

(** ** The scoring boundary *)

Section ScoringProperties.
Context {host : Host}.

Lemma try_except_Return {A} (body : outcome A) (handler : exn -> outcome A) (a : A) :
  (forall e, handler e <> Return a) ->
  try_except body handler = Return a -> body = Return a.
Proof.
  intros Hh. destruct body as [x|e|]; simpl; intros E; [done| |done].
  by apply Hh in E.
Qed.

Lemma check_rows_spec header_len i rows :
  check_rows header_len i rows = Return () ->
  Forall (fun row => length row = header_len) rows.
Proof.
  revert i. induction rows as [|row rows IH]; intros i E; simpl in E; [constructor|].
  case_bool_decide as Hlen; [discriminate|].
  constructor; [|eauto]. destruct (decide (length row = header_len)); done.
Qed.

Lemma mapM_outcome_length {A B} (f : A -> outcome B) (l : list A) (k : list B) :
  mapM f l = Return k -> length k = length l.
Proof.
  revert k. induction l as [|x l IH]; intros k E; simpl in E.
  - by injection E as <-.
  - bind_inv E. bind_inv E. injection E as <-. simpl. f_equal. eauto.
Qed.

(** The Python path keeps the contract of the table: what it returns has a
    header row, and every other row is as long as the header row. *)
Lemma execute_scoring_python_table code inputs md table opts :
  execute_scoring_python code inputs = Return (md, table, opts) ->
  exists header rest,
    table = header :: rest /\ Forall (fun row => length row = length header) rest.
Proof.
  unfold execute_scoring_python. intros E.
  apply try_except_Return in E; [|discriminate].
  bind_inv E. destruct a as [scoring|]; [|discriminate].
  bind_inv E. destruct a as [| | | | |items|]; try discriminate.
  destruct items as [|m [|t [|o [|]]]]; try discriminate.
  destruct m; try discriminate; destruct t as [| | | |rows| |]; try discriminate;
    destruct o; try discriminate.
  case_bool_decide as Hempty; [discriminate|].
  bind_inv E. bind_inv E. injection E as <- <- <-.
  apply mapM_outcome_length in Ha1.
  destruct a as [|header rest]; [simpl in Ha1; lia|].
  exists header, rest. split; [done|]. destruct a0. by apply check_rows_spec in Ha2.
Qed.

End ScoringProperties.

(** C4 fails on the R path: [execute_scoring_r] hands back whatever table
    the R function built.  A table whose data row is shorter than its header
    row, and a table with no row at all, are both returned as results. *)
Theorem execute_scoring_r_returns_malformed_tables :
  execute_scoring "r" r_ragged_script ∅
  = Return ("Low risk", [["score"; "risk"]; ["1"]],
            VDict [("include_md_in_pdf", VBool true); ("include_data_in_pdf", VBool true)])
  /\
  execute_scoring "r" r_empty_script ∅
  = Return ("Low risk", [],
            VDict [("include_md_in_pdf", VBool true); ("include_data_in_pdf", VBool true)]).
Proof. split; vm_compute; reflexivity. Qed.

(** On the Python path the same two tables are refused. *)
Lemma execute_scoring_python_rejects_malformed_tables :
  execute_scoring "python" ragged_script ∅
  = Raise (Exn RuntimeError
             "Erreur lors de l'exécution du scoring Python: Row 1 has 1 columns but headers have 2 columns")
  /\
  execute_scoring "python" empty_script ∅
  = Raise (Exn RuntimeError
             "Erreur lors de l'exécution du scoring Python: Table data must have at least one row (headers)").
Proof. split; vm_compute; reflexivity. Qed.

(** ** The flow controller [go_next] *)

Section FlowProperties.
Context {host : Host}.
Variable questions : list Question.
Variable scoring_language scoring_code : string.
Variable client_info : option ClientInfo.
Implicit Types (context : gmap string Value) (args : list Value).

(** A forward scan from an index of the list ends at the question count at
    the latest. *)
Lemma find_next_forward_le current_idx context r :
  current_idx < Z.of_nat (length questions) ->
  find_next_valid_question current_idx questions context 1 = Return r ->
  r <= Z.of_nat (length questions).
Proof.
  intros Hcur E. unfold find_next_valid_question in E.
  apply find_next_loop_spec in E as (k & Hk & [(Hj & _ & ->)|(Hj & ->)]); [lia|].
  case_bool_decide as Hend; [|lia].
  destruct k as [|k]; [lia|].
  destruct (Hk k) as (Hpos & q & c & Hq & _); [lia|].
  apply lookup_lt_Some in Hq. lia.
Qed.

(** Outside the list the projection keeps the index it is given. *)
Lemma update_question_display_outside current_idx args u :
  ~ 0 <= current_idx < Z.of_nat (length questions) ->
  update_question_display questions current_idx args = Return u ->
  u !! current_question_idx = Some (StateValue current_idx).
Proof.
  intros Hout E.
  apply update_question_display_inv in E
    as (context & d & rows & total & current & _ & Hd & _ & _ & _ & ->).
  apply display_loop_spec in Hd as (_ & _ & _ & _ & Hsame).
  rewrite (Hsame Hout). by rewrite lookup_insert_eq.
Qed.

(** The display loop stops at a question that passes its test. *)
Lemma display_loop_stops context fuel idx :
  displayable_at questions context idx ->
  display_loop questions (S fuel) context idx = Return idx.
Proof.
  intros (Hpos & q & Hq & Hmet). simpl.
  pose proof (lookup_lt_Some _ _ _ Hq) as Hlen.
  rewrite bool_decide_eq_true_2 by lia.
  apply py_index_Return in Hq; [|lia]. rewrite Hq. bind_step.
  unfold is_condition_met in Hmet. destruct (skip_if q) as [c|]; [|done].
  destruct (negb (truthy (VStr c))); [done|].
  bind_inv Hmet. rewrite Ha. bind_step. by injection Hmet as ->.
Qed.

(** At a question that passes the test of the display loop the projection
    keeps the index it is given. *)
Lemma update_question_display_stays current_idx args context u :
  build_context 0 questions args ∅ = Return context ->
  displayable_at questions context current_idx ->
  update_question_display questions current_idx args = Return u ->
  u !! current_question_idx = Some (StateValue current_idx).
Proof.
  intros Hctx Hshown E.
  apply update_question_display_inv in E
    as (context' & d & rows & total & current & Hctx' & Hd & _ & _ & _ & ->).
  rewrite Hctx in Hctx'. injection Hctx' as <-.
  rewrite (display_loop_stops _ _ _ Hshown) in Hd. injection Hd as <-.
  by rewrite lookup_insert_eq.
Qed.

(** *** The gates of [go_next] *)

(** An empty answer to a question without default: a warning that names
    the question, and the projection at the same index. *)
Lemma go_next_rejects_empty current_idx args q v :
  py_index args current_idx = Return v ->
  py_index questions current_idx = Return q ->
  has_default q = false -> is_empty v = true ->
  go_next questions scoring_language scoring_code client_info current_idx args
  = (["Veuillez répondre à la question actuelle avant de continuer: "
      +:+ question q],
     update_question_display questions current_idx args).
Proof.
  intros Hv Hq Hdefault Hempty. unfold go_next.
  rewrite Hv, Hq, Hdefault, Hempty. reflexivity.
Qed.

(** A question with a default, or a question with an answer, goes on to
    the [valid_if] gate. *)
Lemma go_next_passes_empty_gate current_idx args q v :
  py_index args current_idx = Return v ->
  py_index questions current_idx = Return q ->
  has_default q = true \/ is_empty v = false ->
  go_next questions scoring_language scoring_code client_info current_idx args
  = go_next_validate questions scoring_language scoring_code client_info
      current_idx args q.
Proof.
  intros Hv Hq Hgate. unfold go_next. rewrite Hv, Hq.
  destruct Hgate as [-> | ->]; [done|]. by rewrite andb_false_r.
Qed.

(** A [valid_if] that evaluates to false: a warning with the question's
    own message, or with the generic one, and the projection at the same
    index. *)
Lemma go_next_validate_rejects_invalid current_idx args q c context :
  valid_if q = Some c ->
  build_context 0 questions args ∅ = Return context ->
  evaluate_valid_if c context = Return false ->
  go_next_validate questions scoring_language scoring_code client_info
    current_idx args q
  = ([default ("La réponse à la question actuelle n'est pas valide: "
               +:+ question q) (invalid_message q)],
     update_question_display questions current_idx args).
Proof.
  intros Hc Hctx Hvalid. unfold go_next_validate.
  rewrite Hc, Hctx, Hvalid. simpl. by destruct (invalid_message q).
Qed.

(** A [valid_if] that cannot be evaluated: a warning with the error, and
    the projection at the same index. *)
Lemma go_next_validate_rejects_error current_idx args q c context e :
  valid_if q = Some c ->
  build_context 0 questions args ∅ = Return context ->
  evaluate_valid_if c context = Raise e ->
  go_next_validate questions scoring_language scoring_code client_info
    current_idx args q
  = (["Erreur lors de la validation: " +:+ exn_str e],
     update_question_display questions current_idx args).
Proof.
  intros Hc Hctx Hvalid. unfold go_next_validate. by rewrite Hc, Hctx, Hvalid.
Qed.

Lemma go_next_validate_passes current_idx args q context :
  build_context 0 questions args ∅ = Return context ->
  (forall c, valid_if q = Some c -> evaluate_valid_if c context = Return true) ->
  go_next_validate questions scoring_language scoring_code client_info
    current_idx args q
  = ([], go_next_advance questions scoring_language scoring_code client_info
           current_idx args).
Proof.
  intros Hctx Hvalid. unfold go_next_validate.
  destruct (valid_if q) as [c|]; [|done]. by rewrite Hctx, (Hvalid c eq_refl).
Qed.

(** *** Rejections at a question that is not itself skipped *)

(** When the current question passes the test of the display loop under the
    submitted values, a rejection for an empty answer leaves the navigation
    state where it was. *)
Lemma go_next_rejects_empty_keeps_index current_idx args q v context warnings u :
0 <= current_idx ->
questions !! Z.to_nat current_idx = Some q ->
args !! Z.to_nat current_idx = Some v ->
has_default q = false -> is_empty v = true ->
build_context 0 questions args ∅ = Return context ->
is_condition_met q context = Return true ->
go_next questions scoring_language scoring_code client_info current_idx args
= (warnings, Return u) ->
warnings = ["Veuillez répondre à la question actuelle avant de continuer: "
            +:+ question q] /\
u !! current_question_idx = Some (StateValue current_idx).
Proof.
intros Hpos Hq Hv Hdefault Hempty Hctx Hmet E.
rewrite (go_next_rejects_empty _ _ q v) in E;
  [|by apply py_index_Return..|done|done].
injection E as <- E. split; [done|].
eapply update_question_display_stays; [exact Hctx| |exact E].
split; [done|]. eauto.
Qed.

(** Likewise for a rejection by [valid_if], whether it evaluates to false
    or fails to evaluate. *)
Lemma go_next_rejects_invalid_keeps_index current_idx args q v c context warnings u :
0 <= current_idx ->
questions !! Z.to_nat current_idx = Some q ->
args !! Z.to_nat current_idx = Some v ->
has_default q = true \/ is_empty v = false ->
valid_if q = Some c ->
build_context 0 questions args ∅ = Return context ->
evaluate_valid_if c context <> Return true ->
is_condition_met q context = Return true ->
go_next questions scoring_language scoring_code client_info current_idx args
= (warnings, Return u) ->
(evaluate_valid_if c context = Return false /\
 warnings = [default ("La réponse à la question actuelle n'est pas valide: "
                      +:+ question q) (invalid_message q)]
 \/
 exists e, evaluate_valid_if c context = Raise e /\
           warnings = ["Erreur lors de la validation: " +:+ exn_str e]) /\
u !! current_question_idx = Some (StateValue current_idx).
Proof.
intros Hpos Hq Hv Hgate Hc Hctx Hvalid Hmet E.
rewrite (go_next_passes_empty_gate _ _ q v) in E;
  [|by apply py_index_Return..|done].
assert (Hstays : forall r, r = Return u ->
                           update_question_display questions current_idx args = r ->
                           u !! current_question_idx = Some (StateValue current_idx)).
{ intros r -> Hu. eapply update_question_display_stays; [exact Hctx| |exact Hu].
  split; [done|]. eauto. }
destruct (evaluate_valid_if c context) as [[|]|e|] eqn:Hev.
- done.
- rewrite (go_next_validate_rejects_invalid _ _ _ _ _ Hc Hctx Hev) in E.
  injection E as <- E. split; [left; done|]. by apply (Hstays _ eq_refl).
- rewrite (go_next_validate_rejects_error _ _ _ _ _ _ Hc Hctx Hev) in E.
  injection E as <- E. split; [right; eauto|]. by apply (Hstays _ eq_refl).
- unfold go_next_validate in E. rewrite Hc, Hctx, Hev in E. discriminate.
Qed.

End FlowProperties.

(** C5: when [go_next] passes its gates and the forward scan leaves the
    list, the index stored in the navigation state is the question count N
    whether scoring and the report succeed or not.  If [execute_scoring] or
    [generate_pdf_report] raises, the error output shows the text of the
    exception and the result panel and the PDF download are hidden; if both
    return, the result panel shows the scoring markdown, the download shows
    the report and the error output is hidden. *)
Theorem go_next_terminal {host : Host}
    (questions : list Question) (scoring_language scoring_code : string)
    (client_info : option ClientInfo) (current_idx : Z) (args : list Value)
    (q : Question) (v : Value) (context : gmap string Value) (new_idx : Z)
    (u : gmap component update) :
  0 <= current_idx < Z.of_nat (length questions) ->
  questions !! Z.to_nat current_idx = Some q ->
  args !! Z.to_nat current_idx = Some v ->
  has_default q = true \/ is_empty v = false ->
  build_context 0 questions args ∅ = Return context ->
  (forall c, valid_if q = Some c -> evaluate_valid_if c context = Return true) ->
  find_next_valid_question current_idx questions context 1 = Return new_idx ->
  Z.of_nat (length questions) <= new_idx ->
  update_question_display questions new_idx args = Return u ->
  new_idx = Z.of_nat (length questions) /\
  (forall e,
      execute_scoring scoring_language scoring_code context = Raise e \/
      (exists md table opts,
          execute_scoring scoring_language scoring_code context
          = Return (md, table, opts) /\
          generate_pdf_report questions context md table opts client_info = Raise e) ->
      exists u',
        go_next questions scoring_language scoring_code client_info current_idx args
        = ([], Return u') /\
        u' !! current_question_idx = Some (StateValue (Z.of_nat (length questions))) /\
        u' !! error_output = Some (GrUpdate (Some true) None (Some (VStr (exn_str e)))) /\
        u' !! result_output = Some (GrUpdate (Some false) None None) /\
        u' !! pdf_download = Some (GrUpdate (Some false) None None)) /\
  (forall md table opts path,
      execute_scoring scoring_language scoring_code context = Return (md, table, opts) ->
      generate_pdf_report questions context md table opts client_info = Return path ->
      exists u',
        go_next questions scoring_language scoring_code client_info current_idx args
        = ([], Return u') /\
        u' !! current_question_idx = Some (StateValue (Z.of_nat (length questions))) /\
        u' !! result_output = Some (GrUpdate (Some true) None (Some (VStr md))) /\
        u' !! pdf_download = Some (GrUpdate (Some true) None (Some (VStr path))) /\
        u' !! error_output = Some (GrUpdate (Some false) None None)).
Proof.
  intros Hcur Hq Hv Hgate Hctx Hvalid Hfind Hend Hu.
  assert (new_idx = Z.of_nat (length questions)) as ->.
  { pose proof (find_next_forward_le questions current_idx context new_idx
                  ltac:(lia) Hfind). lia. }
  assert (Hstate : u !! current_question_idx
                   = Some (StateValue (Z.of_nat (length questions)))).
  { eapply update_question_display_outside; [|exact Hu]. lia. }
  assert (Hgo : go_next questions scoring_language scoring_code client_info
                  current_idx args
                = ([], go_next_advance questions scoring_language scoring_code
                         client_info current_idx args)).
  { rewrite (go_next_passes_empty_gate _ _ _ _ _ _ q v);
      [|by apply py_index_Return; [lia|]..|done].
    by apply (go_next_validate_passes _ _ _ _ _ _ _ context). }
  rewrite Hgo. unfold go_next_advance.
  rewrite Hctx. bind_step. rewrite Hfind. bind_step. rewrite Hu. bind_step.
  rewrite bool_decide_eq_true_2 by lia. bind_step.
  split; [done|]. split.
  - intros e [Hs|(md & table & opts & Hs & Hp)]; rewrite Hs;
      [|bind_step; cbv beta iota; rewrite Hp];
      (eexists; split; [reflexivity|]);
      rewrite !lookup_insert_eq, !lookup_insert_ne by discriminate;
      rewrite !lookup_insert_eq, !lookup_insert_ne by discriminate;
      by rewrite !lookup_insert_eq.
  - intros md table opts path Hs Hp. rewrite Hs. bind_step. cbv beta iota. rewrite Hp.
    eexists; split; [reflexivity|].
    rewrite !lookup_insert_eq, !lookup_insert_ne by discriminate.
    rewrite !lookup_insert_eq, !lookup_insert_ne by discriminate.
    by rewrite !lookup_insert_eq.
Qed.

Lemma go_next_terminal_witness :
  exists u',
    go_next [plain 1 "q1" "First?"] "python" ragged_script None 0 [VStr "yes"]
    = ([], Return u') /\
    u' !! current_question_idx = Some (StateValue 1) /\
    u' !! error_output
    = Some (GrUpdate (Some true) None
              (Some (VStr "Erreur lors de l'exécution du scoring Python: Row 1 has 1 columns but headers have 2 columns"))) /\
    u' !! result_output = Some (GrUpdate (Some false) None None) /\
    u' !! pdf_download = Some (GrUpdate (Some false) None None).
Proof.
  destruct (returns_true
              (update_question_display [plain 1 "q1" "First?"] 1 [VStr "yes"]))
    as [u Hu]; [vm_compute; reflexivity|].
  destruct (go_next_terminal [plain 1 "q1" "First?"] "python" ragged_script None 0
              [VStr "yes"] (plain 1 "q1" "First?") (VStr "yes")
              {["q1" := VStr "yes"]} 1 u) as (_ & Hfail & _).
  - simpl. lia.
  - reflexivity.
  - reflexivity.
  - right. reflexivity.
  - reflexivity.
  - intros c Hc. discriminate.
  - vm_compute. reflexivity.
  - simpl. lia.
  - exact Hu.
  - apply (Hfail (Exn RuntimeError
                    "Erreur lors de l'exécution du scoring Python: Row 1 has 1 columns but headers have 2 columns")).
    left. vm_compute. reflexivity.
Defined.

(** C6 fails at this input: the question asks for an adult's age and is
    skipped for the answer 10.  [go_next] at index 0 with the answer 10
    raises the warning "Must be adult" and projects at index 0, where the
    display loop now skips the question: the navigation state it returns is
    1, the question count, and no scoring has run. *)
Theorem go_next_invalid_answer_moves_index :
  (go_next adult_only "python" ok_script None 0 [VInt 10]).1 = ["Must be adult"] /\
  ((go_next adult_only "python" ok_script None 0 [VInt 10]).2
     ≫= fun u => Return (u !! current_question_idx, u !! result_output))
  = Return (Some (StateValue 1), None).
Proof. split; vm_compute; reflexivity. Qed.

(** C7 fails at this input: the question is skipped when its answer is a
    single space, and it has no default.  [go_next] at index 0 with the
    answer " " raises the warning that names the question and projects at
    index 0, where the display loop now skips the question: the navigation
    state it returns is 1, the question count, and no scoring has run. *)
Theorem go_next_empty_answer_moves_index :
  (go_next blank_skipper "python" ok_script None 0 [VStr " "]).1
  = ["Veuillez répondre à la question actuelle avant de continuer: Name?"] /\
  ((go_next blank_skipper "python" ok_script None 0 [VStr " "]).2
     ≫= fun u => Return (u !! current_question_idx, u !! result_output))
  = Return (Some (StateValue 1), None).
Proof. split; vm_compute; reflexivity. Qed.

(** * Further properties of the navigation *)

Section ScanProperties.
Context {host : Host}.
Implicit Types (questions : list Question) (context : gmap string Value).

(** A backward scan over skipped questions stops at the first eligible one. *)
Lemma find_next_loop_backward_reaches questions context fuel idx r :
0 <= r <= idx -> idx < Z.of_nat (length questions) ->
Z.of_nat fuel > idx - r ->
(forall i, r < i <= idx -> skipped_at questions context i) ->
eligible_at questions context r ->
find_next_loop fuel questions context (-1) idx = Return r.
Proof.
revert idx. induction fuel as [|fuel IH]; intros idx Hidx Hlen Hfuel Hall Hel; [lia|].
simpl. rewrite bool_decide_eq_true_2 by lia.
destruct (decide (idx = r)) as [->|Hne].
- destruct Hel as (_ & q & Hq & Hel).
  apply py_index_Return in Hq; [|lia]. rewrite Hq. simpl.
  destruct Hel as [->|(c & -> & ->)]; done.
- destruct (Hall idx) as (_ & q & c & Hq & Hc & Hs); [lia|].
  apply py_index_Return in Hq; [|lia]. rewrite Hq. simpl. rewrite Hc, Hs. simpl.
  apply IH; [lia|lia|lia| |done]. intros i Hi. apply Hall. lia.
Qed.

(** An eligible question passes the test of the display loop. *)
Lemma eligible_displayable questions context i :
eligible_at questions context i -> displayable_at questions context i.
Proof.
intros (Hi & q & Hq & Hel). split; [done|]. exists q. split; [done|].
unfold is_condition_met. destruct Hel as [->|(c & -> & Hc)]; [done|].
destruct (negb (truthy (VStr c))); [done|]. by rewrite Hc.
Qed.

End ScanProperties.

(** X1: [find_next_valid_question] returns the nearest eligible question in
    the direction of the scan: forward, the least eligible index after the
    current one; backward, the greatest eligible index before it. *)
Theorem find_next_valid_question_nearest {host : Host}
    (questions : list Question) (context : gmap string Value) (current_idx r : Z) :
  eligible_at questions context r ->
  r < Z.of_nat (length questions) ->
  (-1 <= current_idx < r ->
   (forall i, current_idx < i < r -> skipped_at questions context i) ->
   find_next_valid_question current_idx questions context 1 = Return r) /\
  (r < current_idx <= Z.of_nat (length questions) ->
   (forall i, r < i < current_idx -> skipped_at questions context i) ->
   find_next_valid_question current_idx questions context (-1) = Return r).
Proof.
  intros Hel Hr. pose proof Hel as (Hpos & _). unfold find_next_valid_question. split.
  - intros Hcur Hall. apply find_next_loop_forward_reaches; [lia|lia|lia| |done].
    intros i Hi. apply Hall. lia.
  - intros Hcur Hall. apply find_next_loop_backward_reaches; [lia|lia|lia| |done].
    intros i Hi. apply Hall. lia.
Qed.

Lemma find_next_valid_question_nearest_witness :
  find_next_valid_question 0 scenario_b {["q1" := VStr "no"]} 1 = Return 2 /\
  find_next_valid_question 2 scenario_b {["q1" := VStr "no"]} (-1) = Return 0.
Proof.
  assert (Hskip : skipped_at scenario_b {["q1" := VStr "no"]} 1).
  { split; [lia|]. eexists _, _. repeat split; vm_compute; reflexivity. }
  split.
  - refine (proj1 (find_next_valid_question_nearest scenario_b _ 0 2 _ _) _ _).
    + split; [lia|]. eexists. split; [reflexivity|by left].
    + simpl. lia.
    + lia.
    + intros i Hi. by assert (i = 1) as -> by lia.
  - refine (proj2 (find_next_valid_question_nearest scenario_b _ 2 0 _ _) _ _).
    + split; [lia|]. eexists. split; [reflexivity|by left].
    + simpl. lia.
    + simpl. lia.
    + intros i Hi. by assert (i = 1) as -> by lia.
Defined.

(** X2: [go_prev] goes to the nearest eligible question before the current
    index, whatever the answers are worth: when [r] is eligible and every
    question strictly between [r] and the current index is skipped, [go_prev]
    is the projection at [r] and the navigation state it returns is [r].  From
    the terminal index N with skipped questions at the end this is the last
    eligible question. *)
Theorem go_prev_previous_eligible {host : Host}
    (questions : list Question) (current_idx : Z) (args : list Value)
    (context : gmap string Value) (r : Z) :
  build_context 0 questions args ∅ = Return context ->
  0 <= r < current_idx -> current_idx <= Z.of_nat (length questions) ->
  eligible_at questions context r ->
  (forall i, r < i < current_idx -> skipped_at questions context i) ->
  go_prev questions current_idx args = update_question_display questions r args /\
  (forall u, go_prev questions current_idx args = Return u ->
             u !! current_question_idx = Some (StateValue r)).
Proof.
  intros Hctx Hr Hcur Hel Hall.
  assert (Hgo : go_prev questions current_idx args
                = update_question_display questions r args).
  { unfold go_prev. rewrite Hctx. bind_step.
    assert (Hlen : r < Z.of_nat (length questions)) by lia.
    unfold find_next_valid_question.
    rewrite (find_next_loop_backward_reaches questions context _ _ r);
      [done|lia|lia|lia| |done].
    intros i Hi. apply Hall. lia. }
  split; [done|]. intros u Hu. rewrite Hgo in Hu.
  eapply update_question_display_stays; [exact Hctx| |exact Hu].
  by apply eligible_displayable.
Qed.

Lemma go_prev_previous_eligible_witness :
  go_prev
    [plain 1 "q1" "First?"; plain 2 "q2" "Second?";
     with_skip_if "q1 == 'no'" (plain 3 "q3" "Third?")]
    3 [VStr "no"; VStr "x"; VNone]
  = update_question_display
      [plain 1 "q1" "First?"; plain 2 "q2" "Second?";
       with_skip_if "q1 == 'no'" (plain 3 "q3" "Third?")]
      1 [VStr "no"; VStr "x"; VNone].
Proof.
  refine (proj1 (go_prev_previous_eligible _ 3 _
                   {["q1" := VStr "no"; "q2" := VStr "x"; "q3" := VNone]} 1 _ _ _ _ _)).
  - reflexivity.
  - lia.
  - simpl. lia.
  - split; [lia|]. eexists. split; [reflexivity|by left].
  - intros i Hi. assert (i = 2) as -> by lia.
    split; [lia|]. eexists _, _. repeat split; vm_compute; reflexivity.
Defined.

(** X3: at the first eligible question [go_prev] stays where it is.  When
    every question before the current index is skipped, the scan clamps to 0
    and the projection resolves forward again to the current index; the
    "previous" button is shown all the same as soon as that index is not 0.
    (The first hypothesis is Python's: evaluating the empty string is a
    syntax error.) *)
Theorem go_prev_at_first_eligible {host : Host}
    (questions : list Question) (current_idx : Z) (args : list Value)
    (context : gmap string Value) (u : gmap component update) :
  (forall ctx, exists e, py_eval EmptyString ctx = inl e) ->
  build_context 0 questions args ∅ = Return context ->
  0 <= current_idx < Z.of_nat (length questions) ->
  eligible_at questions context current_idx ->
  (forall i, 0 <= i < current_idx -> skipped_at questions context i) ->
  go_prev questions current_idx args = Return u ->
  u !! current_question_idx = Some (StateValue current_idx) /\
  u !! prev_btn = Some (GrUpdate (Some (bool_decide (current_idx > 0))) None None).
Proof.
  intros Hempty Hctx Hcur Hel Hall Hu.
  unfold go_prev in Hu. rewrite Hctx in Hu.
  assert (Hfind : find_next_valid_question current_idx questions context (-1)
                  = Return 0).
  { unfold find_next_valid_question.
    apply find_next_loop_backward_skipped; [lia|lia|]. intros i Hi. apply Hall. lia. }
  change (Return context ≫= ?f) with (f context) in Hu. cbv beta in Hu.
  rewrite Hfind in Hu.
  change (Return 0 ≫= ?f) with (f 0) in Hu. cbv beta in Hu.
  apply update_question_display_inv in Hu
    as (context' & d & rows & total & current & Hctx' & Hd & _ & Htotal & _ & ->).
  rewrite Hctx in Hctx'. injection Hctx' as <-.
  apply display_loop_spec in Hd as (Hle & Hskipped & Hshown & Hend & _).
  assert (d = current_idx) as ->.
  { destruct (Z.lt_trichotomy d current_idx) as [Hlt|[->|Hgt]]; [|done|].
    - exfalso. eapply skipped_not_eligible; [apply (Hall d); lia|].
      eapply displayable_eligible; eauto. apply Hshown. lia.
    - exfalso. eapply skipped_not_eligible; [apply (Hskipped current_idx); lia|done]. }
  split; [by rewrite lookup_insert_eq|].
  do 2 (rewrite lookup_insert_ne by discriminate). rewrite lookup_insert_eq.
  do 3 f_equal. rewrite (bool_decide_eq_true_2 (current_idx < _)) by lia.
  by rewrite andb_true_r.
Qed.

Lemma go_prev_at_first_eligible_witness :
  exists u,
    go_prev
      [with_skip_if "q1 == 'no'" (plain 1 "q1" "First?"); plain 2 "q2" "Second?"]
      1 [VStr "no"; VNone] = Return u /\
    u !! current_question_idx = Some (StateValue 1) /\
    u !! prev_btn = Some (GrUpdate (Some true) None None).
Proof.
  destruct (returns_true
              (go_prev
                 [with_skip_if "q1 == 'no'" (plain 1 "q1" "First?");
                  plain 2 "q2" "Second?"]
                 1 [VStr "no"; VNone])) as [u Hu]; [vm_compute; reflexivity|].
  exists u. split; [done|].
  apply (go_prev_at_first_eligible
           [with_skip_if "q1 == 'no'" (plain 1 "q1" "First?"); plain 2 "q2" "Second?"]
           1 [VStr "no"; VNone] {["q1" := VStr "no"; "q2" := VNone]} u).
  - intros ctx. eexists. vm_compute. reflexivity.
  - reflexivity.
  - simpl. lia.
  - split; [lia|]. eexists. split; [reflexivity|by left].
  - intros i Hi. assert (i = 0) as -> by lia.
    split; [lia|]. eexists _, _. repeat split; vm_compute; reflexivity.
  - exact Hu.
Defined.

(** X4: when [update_question_display] resolves to another index than the
    one it is given (the question at the given index is skipped), nothing is
    shown: every row update it returns hides its row and every widget update
    makes its widget non-interactive, the question at the resolved index
    included. *)
Theorem update_question_display_resolving_hides_all {host : Host}
    (questions : list Question) (current_idx : Z) (args : list Value)
    (u : gmap component update) (d : Z) :
  0 <= current_idx ->
  update_question_display questions current_idx args = Return u ->
  u !! current_question_idx = Some (StateValue d) ->
  d <> current_idx ->
  (forall var visible,
      u !! Row var = Some (GrUpdate (Some visible) None None) -> visible = false) /\
  (forall var interactive value,
      u !! Widget var = Some (GrUpdate None (Some interactive) value) ->
      interactive = false).
Proof.
  intros Hpos E Hstate Hne.
  apply update_question_display_inv in E
    as (context & d' & rows & total & current & Hctx & Hd & Hrows & _ & _ & ->).
  rewrite lookup_insert_eq in Hstate. injection Hstate as ->.
  pose proof Hd as Hd'.
  apply display_loop_spec in Hd' as (Hle & _).
  pose proof (update_rows_spec _ _ _ _ _ _ _ _ Hrows) as Hspec.
  split.
  - intros var visible Hrow.
    do 3 (rewrite lookup_insert_ne in Hrow by discriminate).
    destruct (Hspec var)
      as [(HR & _)|(l1 & i0 & l2 & q & met & v & Hsplit & Hq & _ & Hmet & _ & HR & _)].
    + rewrite HR, lookup_empty in Hrow. discriminate.
    + rewrite HR in Hrow. injection Hrow as <-.
      unfold row_visible. case_bool_decide as Hi0; [|done].
      destruct met; [exfalso|done].
      assert (Hin : i0 ∈ seqZ (Z.max 0 (d - 1))
                          (Z.of_nat (length questions) - Z.max 0 (d - 1))).
      { rewrite Hsplit. apply elem_of_app. right. apply elem_of_cons. by left. }
      apply elem_of_seqZ in Hin. assert (i0 = current_idx) as -> by lia.
      apply py_index_Return in Hq; [|lia].
      apply Hne. symmetry.
      assert (Hshown : displayable_at questions context current_idx)
        by (split; [lia|]; eauto).
      rewrite (display_loop_stops _ _ _ _ Hshown) in Hd. by injection Hd.
  - intros var interactive value Hw.
    do 3 (rewrite lookup_insert_ne in Hw by discriminate).
    destruct (Hspec var)
      as [(_ & HW & _)|(l1 & i0 & l2 & q & met & v & _ & _ & _ & _ & _ & _ & HW & _)].
    + rewrite HW, lookup_empty in Hw. discriminate.
    + rewrite HW in Hw. injection Hw as <- _.
      destruct (row_interactive current_idx d i0 met) eqn:Hint; [|done].
      apply row_interactive_true in Hint as (Hi & -> & _). lia.
Qed.

Lemma update_question_display_resolving_hides_all_witness :
  exists u,
    update_question_display scenario_b 1 [VStr "no"; VNone; VNone] = Return u /\
    u !! current_question_idx = Some (StateValue 2) /\
    (forall var visible,
        u !! Row var = Some (GrUpdate (Some visible) None None) -> visible = false) /\
    (forall var interactive value,
        u !! Widget var = Some (GrUpdate None (Some interactive) value) ->
        interactive = false).
Proof.
  destruct (returns_true
              (update_question_display scenario_b 1 [VStr "no"; VNone; VNone]))
    as [u Hu]; [vm_compute; reflexivity|].
  assert (Hstate : (u' ← update_question_display scenario_b 1 [VStr "no"; VNone; VNone];
                    Return (u' !! current_question_idx))
                   = Return (Some (StateValue 2))) by (vm_compute; reflexivity).
  rewrite Hu in Hstate. injection Hstate as Hstate.
  exists u. split; [done|]. split; [done|].
  apply (update_question_display_resolving_hides_all
           scenario_b 1 [VStr "no"; VNone; VNone] u 2); [lia|done|done|lia].
Defined.

(** X5: at a question that passes the test of the display loop, and whose
    variable no later question uses, the projection shows the row of that
    question and makes its widget interactive with the submitted value. *)
Theorem update_question_display_shows_current {host : Host}
    (questions : list Question) (current_idx : Z) (args : list Value)
    (context : gmap string Value) (q : Question) (a : Value)
    (u : gmap component update) :
  build_context 0 questions args ∅ = Return context ->
  0 <= current_idx ->
  questions !! Z.to_nat current_idx = Some q ->
  args !! Z.to_nat current_idx = Some a ->
  is_condition_met q context = Return true ->
  (forall j q', current_idx < j -> questions !! Z.to_nat j = Some q' ->
                variable q' <> variable q) ->
  update_question_display questions current_idx args = Return u ->
  u !! Row (variable q) = Some (GrUpdate (Some true) None None) /\
  u !! Widget (variable q) = Some (GrUpdate None (Some true) (Some a)).
Proof.
  intros Hctx Hpos Hq Ha Hmet Hlater E.
  pose proof (lookup_lt_Some _ _ _ Hq) as Hlen.
  apply update_question_display_inv in E
    as (context' & d & rows & total & current & Hctx' & Hd & Hrows & _ & _ & ->).
  rewrite Hctx in Hctx'. injection Hctx' as <-.
  assert (Hshown : displayable_at questions context current_idx)
    by (split; [lia|]; eauto).
  rewrite (display_loop_stops _ _ _ _ Hshown) in Hd. injection Hd as <-.
  do 3 (rewrite lookup_insert_ne by discriminate).
  do 3 (rewrite lookup_insert_ne by discriminate).
  assert (Hpy : py_index questions current_idx = Return q)
    by (apply py_index_Return; [lia|done]).
  assert (Hwin : current_idx ∈ seqZ (Z.max 0 (current_idx - 1))
                   (Z.of_nat (length questions) - Z.max 0 (current_idx - 1)))
    by (apply elem_of_seqZ; lia).
  destruct (update_rows_spec _ _ _ _ _ _ _ _ Hrows (variable q))
    as [(_ & _ & Hnone)|
        (l1 & i0 & l2 & q0 & met & v & Hsplit & Hq0 & Hvar & Hmet0 & Hv & HR & HW & Hlast)].
  - exfalso. by apply (Hnone current_idx q).
  - assert (Hi0 : i0 ∈ seqZ (Z.max 0 (current_idx - 1))
                        (Z.of_nat (length questions) - Z.max 0 (current_idx - 1))).
    { rewrite Hsplit. apply elem_of_app. right. apply elem_of_cons. by left. }
    apply elem_of_seqZ in Hi0.
    assert (i0 = current_idx) as ->.
    { destruct (Z.lt_trichotomy i0 current_idx) as [Hlt|[->|Hgt]]; [|done|]; exfalso.
      - apply (Hlast current_idx q); [|done|done].
        eapply seqZ_split_later; [exact Hsplit|done|lia].
      - apply py_index_Return in Hq0; [|lia]. by apply (Hlater i0 q0). }
    rewrite Hpy in Hq0. injection Hq0 as <-.
    rewrite Hmet in Hmet0. injection Hmet0 as <-.
    apply py_index_Return in Hv; [|lia]. rewrite Ha in Hv. injection Hv as <-.
    rewrite HR, HW. unfold row_visible, row_interactive.
    rewrite !bool_decide_eq_true_2 by lia. done.
Qed.

Lemma update_question_display_shows_current_witness :
  exists u,
    update_question_display scenario_b 2 [VStr "no"; VNone; VStr "x"] = Return u /\
    u !! Row "q3" = Some (GrUpdate (Some true) None None) /\
    u !! Widget "q3" = Some (GrUpdate None (Some true) (Some (VStr "x"))).
Proof.
  destruct (returns_true
              (update_question_display scenario_b 2 [VStr "no"; VNone; VStr "x"]))
    as [u Hu]; [vm_compute; reflexivity|].
  exists u. split; [done|].
  apply (update_question_display_shows_current
           scenario_b 2 [VStr "no"; VNone; VStr "x"]
           {["q1" := VStr "no"; "q2" := VNone; "q3" := VStr "x"]}
           (plain 3 "q3" "Third?") (VStr "x") u); try reflexivity; [lia| |done].
  intros j q' Hj Hq'. apply lookup_lt_Some in Hq'. simpl in Hq'. lia.
Defined.

(** X6: the projection never changes an answer: the value in a widget
    update is the value that was submitted for a question with that
    variable. *)
Theorem update_question_display_echoes_values {host : Host}
    (questions : list Question) (current_idx : Z) (args : list Value)
    (u : gmap component update) (var : string) (interactive : option bool)
    (value : option Value) :
  update_question_display questions current_idx args = Return u ->
  u !! Widget var = Some (GrUpdate None interactive value) ->
  exists (i : nat) q a,
    questions !! i = Some q /\ variable q = var /\ args !! i = Some a /\
    value = Some a.
Proof.
  intros E Hw.
  apply update_question_display_inv in E
    as (context & d & rows & total & current & _ & _ & Hrows & _ & _ & ->).
  do 3 (rewrite lookup_insert_ne in Hw by discriminate).
  destruct (update_rows_spec _ _ _ _ _ _ _ _ Hrows var)
    as [(_ & HW & _)|
        (l1 & i0 & l2 & q & met & v & Hsplit & Hq & Hvar & _ & Hv & _ & HW & _)].
  - rewrite HW, lookup_empty in Hw. discriminate.
  - rewrite HW in Hw. injection Hw as _ <-.
    assert (Hi0 : i0 ∈ seqZ (Z.max 0 (d - 1))
                        (Z.of_nat (length questions) - Z.max 0 (d - 1))).
    { rewrite Hsplit. apply elem_of_app. right. apply elem_of_cons. by left. }
    apply elem_of_seqZ in Hi0.
    apply py_index_Return in Hq; [|lia]. apply py_index_Return in Hv; [|lia].
    exists (Z.to_nat i0), q, v. done.
Qed.

Lemma update_question_display_echoes_values_witness :
  exists u,
    update_question_display scenario_b 2 [VStr "no"; VNone; VStr "x"] = Return u /\
    exists (i : nat) q a,
      scenario_b !! i = Some q /\ variable q = "q3" /\
      [VStr "no"; VNone; VStr "x"] !! i = Some a /\ Some (VStr "x") = Some a.
Proof.
  destruct (returns_true
              (update_question_display scenario_b 2 [VStr "no"; VNone; VStr "x"]))
    as [u Hu]; [vm_compute; reflexivity|].
  assert (Hw : (u' ← update_question_display scenario_b 2 [VStr "no"; VNone; VStr "x"];
                Return (u' !! Widget "q3"))
               = Return (Some (GrUpdate None (Some true) (Some (VStr "x")))))
    by (vm_compute; reflexivity).
  rewrite Hu in Hw. injection Hw as Hw.
  exists u. split; [done|].
  exact (update_question_display_echoes_values _ _ _ _ _ _ _ Hu Hw).
Defined.

(** X7: [update_question_display] returns its updates exactly when the
    widget values give a context (there is a value for every question) and
    every [skip_if] of the question list evaluates in it; a condition that
    cannot be evaluated makes the projection raise at every index, however
    far that question is from the current one. *)
Theorem update_question_display_returns_iff {host : Host}
    (questions : list Question) (current_idx : Z) (args : list Value) :
  (exists u, update_question_display questions current_idx args = Return u) <->
  (exists context, build_context 0 questions args ∅ = Return context /\
                   Forall (evaluates context) questions).
Proof.
  split.
  - intros [u E].
    apply update_question_display_inv in E
      as (context & d & rows & total & current & Hctx & _ & _ & Htotal & _).
    exists context. split; [done|].
    apply Forall_lookup. intros i q Hq c Hc.
    by apply (count_valid_evaluates questions context total i q c).
  - intros (context & Hctx & Hall).
    by apply (update_question_display_returns questions current_idx args context).
Qed.

(** ** [go_next] before the end, and [compute_score] *)

Section AdvanceProperties.
Context {host : Host}.
Variable questions : list Question.
Variable client_info : option ClientInfo.

(** Before the end of the list the advance is the projection at the next
    question with the three outputs hidden; the scoring script plays no
    part. *)
Lemma go_next_advance_before_end scoring_language scoring_code current_idx args
    context new_idx :
build_context 0 questions args ∅ = Return context ->
find_next_valid_question current_idx questions context 1 = Return new_idx ->
new_idx < Z.of_nat (length questions) ->
go_next_advance questions scoring_language scoring_code client_info current_idx args
= (u ← update_question_display questions new_idx args;
   Return (<[error_output := GrUpdate (Some false) None None]>
             (<[pdf_download := GrUpdate (Some false) None None]>
                (<[result_output := GrUpdate (Some false) None None]> u)))).
Proof.
intros Hctx Hfind Hlt. unfold go_next_advance.
rewrite Hctx. bind_step. rewrite Hfind. bind_step.
destruct (update_question_display questions new_idx args) as [u|e|]; [|done..].
do 2 bind_step. by rewrite bool_decide_eq_false_2 by lia.
Qed.

End AdvanceProperties.

(** X8: [go_next] runs the scoring script only at the end of the
    questionnaire.  When the forward scan finds a next question inside the
    list, the result of [go_next] is the same whatever the scoring language
    and script are, and an advance (a result without warning) hides the
    result panel, the PDF download and the error output. *)
Theorem go_next_before_end_never_scores {host : Host}
    (questions : list Question) (client_info : option ClientInfo)
    (current_idx : Z) (args : list Value) (context : gmap string Value)
    (new_idx : Z) :
  build_context 0 questions args ∅ = Return context ->
  find_next_valid_question current_idx questions context 1 = Return new_idx ->
  new_idx < Z.of_nat (length questions) ->
  (forall language code language' code',
      go_next questions language code client_info current_idx args
      = go_next questions language' code' client_info current_idx args) /\
  (forall language code u,
      go_next questions language code client_info current_idx args = ([], Return u) ->
      u !! result_output = Some (GrUpdate (Some false) None None) /\
      u !! pdf_download = Some (GrUpdate (Some false) None None) /\
      u !! error_output = Some (GrUpdate (Some false) None None)).
Proof.
  intros Hctx Hfind Hlt. split.
  - intros language code language' code'. unfold go_next, go_next_validate.
    rewrite (go_next_advance_before_end _ _ language code _ _ _ _ Hctx Hfind Hlt).
    by rewrite (go_next_advance_before_end _ _ language' code' _ _ _ _ Hctx Hfind Hlt).
  - intros language code u E. unfold go_next, go_next_validate in E.
    rewrite (go_next_advance_before_end _ _ language code _ _ _ _ Hctx Hfind Hlt) in E.
    rewrite Hctx in E.
    assert (Hadv :
              (u' ← update_question_display questions new_idx args;
               Return (<[error_output := GrUpdate (Some false) None None]>
                         (<[pdf_download := GrUpdate (Some false) None None]>
                            (<[result_output := GrUpdate (Some false) None None]> u'))))
              = Return u).
    { destruct (py_index args current_idx) as [v| |]; [|discriminate..].
      destruct (py_index questions current_idx) as [q| |]; [|discriminate..].
      destruct (negb (has_default q) && is_empty v); [discriminate|].
      destruct (valid_if q) as [c|]; [|by injection E].
      destruct (evaluate_valid_if c context) as [[|]| |]; simpl in E;
        try discriminate. by injection E. }
    bind_inv Hadv. injection Hadv as <-.
    rewrite lookup_insert_eq.
    do 2 (rewrite lookup_insert_ne by discriminate). rewrite lookup_insert_eq.
    rewrite lookup_insert_ne by discriminate. by rewrite lookup_insert_eq.
Qed.

Lemma go_next_before_end_never_scores_witness :
  go_next scenario_b "python" ok_script None 0 [VStr "no"; VNone; VNone]
  = go_next scenario_b "r" r_ragged_script None 0 [VStr "no"; VNone; VNone].
Proof.
  refine (proj1 (go_next_before_end_never_scores scenario_b None 0
                   [VStr "no"; VNone; VNone]
                   {["q1" := VStr "no"; "q2" := VNone; "q3" := VNone]} 2 _ _ _)
            _ _ _ _).
  - reflexivity.
  - vm_compute. reflexivity.
  - simpl. lia.
Defined.


(** * Loading: PrevMed/utils/io.py and the sort of [create_survey_interface] *)

Section OrderProperties.
Implicit Types (l : list Z) (orders : list (option Z)).








End OrderProperties.


Section SortProperties.
Implicit Types (q : Question) (l : list Question).






End SortProperties.



(** X12: the language that [load_scoring_script] returns is one that
    [execute_scoring] runs: "r" goes to the R path and "python" to the Python
    path, never to the error for an unsupported language.  A file whose
    lower-cased suffix is not in the two lists of the source is refused with
    a [ValueError] before it is read. *)
Theorem load_scoring_script_language {host : Host}
    (path_suffix py_lower : string -> string) (read_text : string -> outcome string)
    (filepath language code : string) (inputs : gmap string Value) :
  load_scoring_script path_suffix py_lower read_text filepath = Return (language, code) ->
  (language = "r" /\
   execute_scoring language code inputs = execute_scoring_r code inputs \/
   language = "python" /\
   execute_scoring language code inputs = execute_scoring_python code inputs) /\
  (forall filepath' read_text',
      py_lower (path_suffix filepath') ∉ [".r"; ".R"; ".py"; ".python"] ->
      exists e, load_scoring_script path_suffix py_lower read_text' filepath' = Raise e /\
                exn_class e = ValueError).
Proof.
  intros E. split.
  - unfold load_scoring_script in E. bind_inv E. bind_inv E. injection E as <- <-.
    repeat case_bool_decide; try discriminate; injection Ha as <-;
      [by left|by right].
  - intros filepath' read_text' Hext. unfold load_scoring_script.
    rewrite bool_decide_eq_false_2.
    2:{ intros Hin. apply Hext. apply elem_of_cons in Hin as [->|Hin]; [by left|].
        apply list_elem_of_singleton in Hin. rewrite Hin. right. by left. }
    rewrite bool_decide_eq_false_2.
    2:{ intros Hin. apply Hext. apply elem_of_cons in Hin as [->|Hin].
        - do 2 right. by left.
        - apply list_elem_of_singleton in Hin. rewrite Hin. do 3 right. by left. }
    eexists. split; reflexivity.
Qed.

Lemma load_scoring_script_language_witness :
  execute_scoring "python" ok_script ∅ = execute_scoring_python ok_script ∅.
Proof.
  destruct (load_scoring_script_language
              (fun _ => ".PY") (fun _ => ".py") (fun _ => Return ok_script)
              "premm5.PY" "python" ok_script ∅) as [[[Hl _]|[_ Hrun]] _].
  - reflexivity.
  - discriminate.
  - exact Hrun.
Defined.

(** * Widgets: [create_widget_for_question] *)

(** X13: the keyword arguments that [create_widget_for_question] passes to
    the Gradio class.  The declared default is dropped and is not passed as
    [value] (the widget has a [value] only if [widget_args] has that key
    itself); [interactive] and [elem_classes] are forced whatever
    [widget_args] says; [scale] and [label] are only given a default; and a
    Number widget always has the precision 0. *)
Theorem create_widget_for_question_kwargs
    (py_title : string -> string) (gr_has : string -> bool) (q : Question) :
  let kwargs := (create_widget_for_question py_title gr_has q).2 in
  let given := default ∅ (widget_args q) in
  kwargs !! "default" = None /\
  kwargs !! "value" = given !! "value" /\
  kwargs !! "interactive" = Some (VBool true) /\
  kwargs !! "elem_classes" = Some (VList [VStr "adjusted-widget"]) /\
  kwargs !! "scale" = Some (default (VInt 1) (given !! "scale")) /\
  kwargs !! "label"
  = Some (default (VStr ("Q" +:+ pretty (order q) +:+ ": " +:+ question q))
                  (given !! "label")) /\
  (py_title (widget q) = "Number" ->
   (create_widget_for_question py_title gr_has q).1 = "Number" /\
   kwargs !! "precision" = Some (VInt 0)).
Proof.
  unfold create_widget_for_question. cbv zeta.
  set (given := default ∅ (widget_args q)).
  set (k1 := <["interactive" := VBool true]> (delete "default" given)).
  assert (Hscale : k1 !! "scale" = given !! "scale").
  { unfold k1. rewrite lookup_insert_ne by done. by rewrite lookup_delete_ne. }
  assert (Hlabel1 : k1 !! "label" = given !! "label").
  { unfold k1. rewrite lookup_insert_ne by done. by rewrite lookup_delete_ne. }
  set (k2 := if bool_decide (is_Some (k1 !! "scale")) then k1
             else <["scale" := VInt 1]> k1).
  assert (Hk2 : forall key, key <> "scale" -> k2 !! key = k1 !! key).
  { intros key Hkey. unfold k2. case_bool_decide; [done|].
    by rewrite lookup_insert_ne. }
  assert (Hk2s : k2 !! "scale" = Some (default (VInt 1) (given !! "scale"))).
  { unfold k2. case_bool_decide as Hs.
    - rewrite Hscale in *. by destruct Hs as [v ->].
    - rewrite lookup_insert_eq. rewrite Hscale in Hs.
      destruct (given !! "scale"); [|done]. exfalso. apply Hs. eauto. }
  set (k3 := if bool_decide (is_Some (k2 !! "label")) then k2 else <["label" := _]> k2).
  assert (Hk3 : forall key, key <> "label" -> k3 !! key = k2 !! key).
  { intros key Hkey. unfold k3. case_bool_decide; [done|].
    by rewrite lookup_insert_ne. }
  assert (Hk3l : k3 !! "label"
                 = Some (default (VStr ("Q" +:+ pretty (order q) +:+ ": " +:+ question q))
                                 (given !! "label"))).
  { unfold k3. rewrite (Hk2 "label") by done. case_bool_decide as Hs.
    - rewrite (Hk2 "label") by done. rewrite Hlabel1 in *. by destruct Hs as [v ->].
    - rewrite lookup_insert_eq. rewrite Hlabel1 in Hs.
      destruct (given !! "label"); [|done]. exfalso. apply Hs. eauto. }
  set (k4 := <["elem_classes" := VList [VStr "adjusted-widget"]]> k3).
  assert (Hk4 : forall key, key <> "elem_classes" -> k4 !! key = k3 !! key).
  { intros key Hkey. unfold k4. by rewrite lookup_insert_ne. }
  assert (Hfacts :
            k4 !! "default" = None /\
            k4 !! "value" = given !! "value" /\
            k4 !! "interactive" = Some (VBool true) /\
            k4 !! "elem_classes" = Some (VList [VStr "adjusted-widget"]) /\
            k4 !! "scale" = Some (default (VInt 1) (given !! "scale")) /\
            k4 !! "label"
            = Some (default (VStr ("Q" +:+ pretty (order q) +:+ ": " +:+ question q))
                            (given !! "label"))).
  { split; [|split; [|split; [|split; [|split]]]].
    - rewrite Hk4, Hk3, Hk2 by done. unfold k1.
      rewrite lookup_insert_ne by done. apply lookup_delete_eq.
    - rewrite Hk4, Hk3, Hk2 by done. unfold k1.
      rewrite lookup_insert_ne by done. by rewrite lookup_delete_ne.
    - rewrite Hk4, Hk3, Hk2 by done. unfold k1. apply lookup_insert_eq.
    - unfold k4. apply lookup_insert_eq.
    - rewrite Hk4, Hk3 by done. exact Hk2s.
    - rewrite Hk4 by done. exact Hk3l. }
  destruct Hfacts as (F1 & F2 & F3 & F4 & F5 & F6).
  clearbody k4. clear Hk4 Hk3l Hk3 k3 Hk2s Hk2 k2 Hlabel1 Hscale k1.
  assert (Hextra : forall key, key <> "precision" ->
                     <["precision" := VInt 0]> k4 !! key = k4 !! key).
  { intros key Hkey. by rewrite lookup_insert_ne. }
  destruct (String.eqb (py_title (widget q)) "Radio") eqn:ERadio.
  { cbn [fst snd]. do 6 (split; [assumption|]).
    apply String.eqb_eq in ERadio. intros Ht. rewrite Ht in ERadio. discriminate. }
  destruct (String.eqb (py_title (widget q)) "Slider") eqn:ESlider.
  { cbn [fst snd]. do 6 (split; [assumption|]).
    apply String.eqb_eq in ESlider. intros Ht. rewrite Ht in ESlider. discriminate. }
  destruct (String.eqb (py_title (widget q)) "Number") eqn:ENumber.
  { cbn [fst snd]. rewrite !Hextra by discriminate. do 6 (split; [assumption|]).
    intros _. split; [reflexivity|]. apply lookup_insert_eq. }
  assert (Hnot : py_title (widget q) = "Number" -> False).
  { intros Ht. rewrite Ht in ENumber. discriminate. }
  destruct (String.eqb (py_title (widget q)) "Checkbox");
    [|destruct (String.eqb (py_title (widget q)) "Textbox");
      [|destruct (gr_has (py_title (widget q)))]];
    cbn [fst snd]; do 6 (split; [assumption|]); intros Ht; by destruct (Hnot Ht).
Qed.

(** * The contract of the Python scoring path *)

Section ContractProperties.
Context {host : Host}.

Lemma mapM_py_iter_str (rows : list Value) (cells : list (list Value)) :
  mapM (M:=outcome) py_iter rows = Return cells ->
  mapM (M:=outcome)
       (fun row => vals ← py_iter row; Return (py_str <$> (vals : list Value))) rows
  = Return ((fun row : list Value => py_str <$> row) <$> cells).
Proof.
  revert cells. induction rows as [|row rows IH]; intros cells E; simpl in E.
  - by injection E as <-.
  - bind_inv E. bind_inv E. injection E as <-. simpl.
    rewrite Ha. bind_step. change (Return (py_str <$> a) ≫= ?f) with (f (py_str <$> a)).
    cbv beta. rewrite (IH _ Ha0). done.
Qed.

Lemma check_rows_complete header_len i rows :
  Forall (fun row : list string => length row = header_len) rows ->
  check_rows header_len i rows = Return ().
Proof.
  intros H. revert i. induction H as [|row rows Hrow _ IH]; intros i; simpl; [done|].
  rewrite bool_decide_eq_false_2 by (intros ?; done). apply IH.
Qed.

Lemma check_rows_fails header_len i rows :
  ~ Forall (fun row : list string => length row = header_len) rows ->
  exists msg, check_rows header_len i rows = Raise (Exn ValueError msg).
Proof.
  revert i. induction rows as [|row rows IH]; intros i H; simpl.
  - destruct H. constructor.
  - case_bool_decide as Hlen; [eauto|].
    apply IH. intros Hrest. apply H. constructor; [|done].
    destruct (decide (length row = header_len)); done.
Qed.

End ContractProperties.

(** X14: the contract of the Python path, for a script that defines
    [scoring] and whose [scoring] returns a tuple of a string, a list of
    iterable rows and a dict.  When the list has a first row and every
    other row has as many cells as the first, [execute_scoring_python]
    returns the markdown and the options unchanged and the table with every
    cell replaced by its [str]; in every other case (no row, or a row of
    another length) it raises a [RuntimeError]. *)
Theorem execute_scoring_python_contract `{host : Host} code inputs scoring md rows opts
    (cells : list (list Value)) :
  py_exec code = Return (Some scoring) ->
  scoring inputs = Return (VTuple [VStr md; VList rows; VDict opts]) ->
  mapM (M:=outcome) py_iter rows = Return cells ->
  ((exists header rest,
       cells = header :: rest
       /\ Forall (fun row => length row = length header) rest) ->
   execute_scoring_python code inputs
   = Return (md, (fun row : list Value => py_str <$> row) <$> cells, VDict opts))
  /\
  (~ (exists header rest,
        cells = header :: rest
        /\ Forall (fun row => length row = length header) rest) ->
   exists msg, execute_scoring_python code inputs = Raise (Exn RuntimeError msg)).
Proof.
  intros Hexec Hcall Hcells. unfold execute_scoring_python.
  rewrite Hexec. bind_step. cbv iota. rewrite Hcall. bind_step. cbv iota.
  pose proof (mapM_outcome_length _ _ _ Hcells) as Hlen.
  split.
  - intros (header & rest & -> & Hrest).
    rewrite bool_decide_eq_false_2 by (simpl in Hlen; lia).
    rewrite (mapM_py_iter_str _ _ Hcells). bind_step.
    rewrite check_rows_complete; [done|].
    simpl. rewrite length_fmap. apply Forall_fmap.
    eapply Forall_impl; [exact Hrest|]. intros row Hrow. simpl.
    by rewrite length_fmap.
  - intros Hbad. case_bool_decide as Hempty; [simpl; eauto|].
    rewrite (mapM_py_iter_str _ _ Hcells). bind_step.
    destruct cells as [|header rest]; [simpl in Hlen; lia|].
    destruct (check_rows_fails (length (py_str <$> header)) 1
                ((fun row : list Value => py_str <$> row) <$> rest)) as [msg Hmsg].
    { intros Hall. apply Hbad. exists header, rest. split; [done|].
      apply Forall_fmap in Hall. eapply Forall_impl; [exact Hall|].
      intros row Hrow. simpl in Hrow. by rewrite !length_fmap in Hrow. }
    rewrite fmap_cons. cbn [head tail default from_option id]. rewrite Hmsg. simpl. eauto.
Qed.

Lemma execute_scoring_python_contract_witness :
  execute_scoring_python ok_script ∅
  = Return ("Low risk", [["score"; "risk"]; ["1"; "low"]], VDict [])
  /\ exists msg, execute_scoring_python ragged_script ∅ = Raise (Exn RuntimeError msg).
Proof.
  split.
  - refine (proj1 (execute_scoring_python_contract (host:=demo_host) ok_script ∅
                     (fun _ => Return (VTuple [VStr "Low risk";
                                               table_of [["score"; "risk"]; ["1"; "low"]];
                                               VDict []]))
                     "Low risk" _ [] [[VStr "score"; VStr "risk"]; [VStr "1"; VStr "low"]]
                     eq_refl eq_refl eq_refl) _).
    exists [VStr "score"; VStr "risk"], [[VStr "1"; VStr "low"]].
    split; [reflexivity|]. repeat constructor.
  - refine (proj2 (execute_scoring_python_contract (host:=demo_host) ragged_script ∅
                     (fun _ => Return (VTuple [VStr "Low risk";
                                               table_of [["score"; "risk"]; ["1"]];
                                               VDict []]))
                     "Low risk" _ [] [[VStr "score"; VStr "risk"]; [VStr "1"]]
                     eq_refl eq_refl eq_refl) _).
    intros (header & rest & E & Hrest). injection E as <- <-.
    apply Forall_cons in Hrest as [Hlen _]. simpl in Hlen. lia.
Defined.

(** * The report: PrevMed/utils/pdf.py *)

(** ** [str.replace] *)

Lemma occurs_app c s t : occurs c (s +:+ t) <-> occurs c s \/ occurs c t.
Proof.
  induction s as [|x s IH]; simpl.
  - split; [by right|]. by intros [[]|].
  - rewrite IH. tauto.
Qed.

Lemma replace_scan_cons old new skip x s :
  replace_scan old new skip (String x s)
  = match skip with
    | S k => replace_scan old new k s
    | O =>
        if String.prefix old (String x s) then
          new +:+ replace_scan old new (String.length old - 1) s
        else String x (replace_scan old new O s)
    end.
Proof. reflexivity. Qed.

(** a replacement brings in no character that is neither in the string nor
    in the text put in *)
Lemma replace_scan_occurs c old new skip s :
  occurs c (replace_scan old new skip s) -> occurs c s \/ occurs c new.
Proof.
  revert skip. induction s as [|x s IH]; intros skip; [simpl; tauto|].
  rewrite replace_scan_cons. destruct skip as [|k].
  - destruct (String.prefix old (String x s)).
    + rewrite occurs_app. intros [H|H]; [tauto|]. apply IH in H. simpl. tauto.
    + simpl. intros [H|H]; [tauto|]. apply IH in H. tauto.
  - intros H. apply IH in H. simpl. tauto.
Qed.

Lemma interleave_occurs c new s :
  occurs c (interleave new s) -> occurs c s \/ occurs c new.
Proof.
  induction s as [|x s IH]; simpl; [tauto|].
  rewrite occurs_app. simpl. tauto.
Qed.

Lemma py_replace_occurs c old new s :
  occurs c (py_replace old new s) -> occurs c s \/ occurs c new.
Proof.
  destruct old; simpl; [apply interleave_occurs | apply replace_scan_occurs].
Qed.

Lemma prefix_empty s : String.prefix EmptyString s = true.
Proof. by destruct s. Qed.

(** replacing a character removes it *)
Lemma py_replace_char_removed c new s :
  ~ occurs c new -> ~ occurs c (py_replace (String c EmptyString) new s).
Proof.
  intros Hnew. unfold py_replace.
  induction s as [|x s IH]; [simpl; tauto|].
  rewrite replace_scan_cons. cbn [String.prefix String.length Nat.sub].
  destruct (ascii_dec c x) as [->|Hne]; cbn [String.prefix].
  - rewrite prefix_empty, occurs_app. tauto.
  - simpl. tauto.
Qed.

(** a string without the character is left as it is *)
Lemma py_replace_char_absent c new s :
  ~ occurs c s -> py_replace (String c EmptyString) new s = s.
Proof.
  unfold py_replace. induction s as [|x s IH]; [done|].
  rewrite replace_scan_cons. cbn [String.prefix String.length Nat.sub].
  simpl occurs. intros H. destruct (ascii_dec c x) as [->|Hne]; [tauto|].
  f_equal. apply IH. tauto.
Qed.

(** ** The keys of [results_dict] *)

Lemma sanitize_label_clean s :
  ~ occurs "/" (sanitize_label s) /\ ~ occurs " " (sanitize_label s).
Proof.
  unfold sanitize_label.
  pose proof (py_replace_char_removed "/" "_" s) as H1.
  pose proof (py_replace_char_removed " " "_" (py_replace "/" "_" s)) as H2.
  set (t2 := py_replace " " "_" (py_replace "/" "_" s)) in *.
  assert (H3 : ~ occurs "/" t2).
  { intros H. apply py_replace_occurs in H as [H|H]; [|simpl in H; intuition congruence].
    apply H1; [|done]. simpl. intuition congruence. }
  assert (H4 : ~ occurs " " t2).
  { apply H2. simpl. intuition congruence. }
  clearbody t2.
  split; intros H;
    repeat (apply py_replace_occurs in H as [H|H];
            [|simpl in H; intuition congruence]); tauto.
Qed.

Lemma dict_set_keys {V} (k k' : string) (v : V) (d : list (string * V)) :
  k' ∈ dict_keys (dict_set k v d) <-> k' = k \/ k' ∈ dict_keys d.
Proof.
  unfold dict_keys. induction d as [|[k0 v0] d IH]; simpl.
  - rewrite list_elem_of_singleton. rewrite elem_of_nil. tauto.
  - destruct (String.eqb k0 k) eqn:E; csimpl.
    + apply String.eqb_eq in E as ->. rewrite !elem_of_cons. tauto.
    + rewrite !elem_of_cons, IH. tauto.
Qed.

Section KeyInvariant.
Variable P : string -> Prop.
Hypothesis P_key :
  forall label header, P (sanitize_label label +:+ "_" +:+ sanitize_label header).

Lemma results_dict_cells_keys headers row r0 indices d d' :
  results_dict_cells headers row (sanitize_label r0) indices d = Return d' ->
  Forall P (dict_keys d) -> Forall P (dict_keys d').
Proof.
  revert d. induction indices as [|i indices IH]; intros d E Hd; simpl in E.
  - by injection E as <-.
  - bind_inv E. bind_inv E. apply IH in E; [done|].
    apply Forall_forall. intros k Hk. apply dict_set_keys in Hk as [->|Hk].
    + apply P_key.
    + by eapply Forall_forall in Hd.
Qed.

Lemma results_dict_rows_keys headers rows d d' :
  results_dict_rows headers rows d = Return d' ->
  Forall P (dict_keys d) -> Forall P (dict_keys d').
Proof.
  revert d. induction rows as [|row rows IH]; intros d E Hd; simpl in E.
  - by injection E as <-.
  - bind_inv E. bind_inv E. apply IH in E; [done|].
    by eapply results_dict_cells_keys.
Qed.

End KeyInvariant.

(** X15: the keys that [generate_pdf_report] builds for the CSV log hold
    neither a slash nor a space, whatever the labels of the result table
    are. *)
Theorem results_dict_keys_sanitized results d :
  results_dict results = Return d ->
  forall key, key ∈ dict_keys d -> ~ occurs "/" key /\ ~ occurs " " key.
Proof.
  intros E key Hkey.
  assert (H : Forall (fun k => ~ occurs "/" k /\ ~ occurs " " k) (dict_keys d)).
  { destruct results as [|headers rows]; simpl in E.
    - injection E as <-. constructor.
    - eapply results_dict_rows_keys; [|exact E|constructor].
      intros label header.
      destruct (sanitize_label_clean label) as [L1 L2].
      destruct (sanitize_label_clean header) as [H1 H2].
      rewrite !occurs_app. simpl. intuition congruence. }
  by eapply Forall_forall in H.
Qed.

Lemma results_dict_keys_sanitized_witness :
  results_dict [["Risk level"; "Score / total"]; ["Any gene"; "3"]]
  = Return [("Any_gene_Score___total", "3")]
  /\ ~ occurs "/" "Any_gene_Score___total" /\ ~ occurs " " "Any_gene_Score___total".
Proof.
  split; [vm_compute; reflexivity|].
  apply (results_dict_keys_sanitized
           [["Risk level"; "Score / total"]; ["Any gene"; "3"]]
           [("Any_gene_Score___total", "3")]).
  - vm_compute; reflexivity.
  - apply list_elem_of_singleton. reflexivity.
Defined.

(** ** When the conversion of the table fails *)

Lemma py_index_out_of_range {A} (l : list A) (i : Z) :
  Z.of_nat (length l) <= i ->
  py_index l i = Raise (Exn IndexError "index out of range").
Proof.
  intros Hi. unfold py_index.
  rewrite (bool_decide_eq_false_2 (i < 0)) by lia.
  rewrite (bool_decide_eq_true_2 (0 <= i)) by lia.
  rewrite lookup_ge_None_2; [done|lia].
Qed.

Lemma results_dict_cells_returns headers row label indices d :
  Forall (fun i => 0 <= i < Z.of_nat (length headers)
                   /\ 0 <= i < Z.of_nat (length row)) indices ->
  exists d', results_dict_cells headers row label indices d = Return d'.
Proof.
  intros H. revert d. induction H as [|i indices [Hh Hr] _ IH]; intros d; simpl; [eauto|].
  destruct (py_index_in_range headers i Hh) as [h ->].
  destruct (py_index_in_range row i Hr) as [v ->]. bind_step. bind_step. apply IH.
Qed.

Lemma results_dict_cells_raises headers row label indices d :
  Forall (fun i => 0 <= i < Z.of_nat (length row)) indices ->
  Exists (fun i => Z.of_nat (length headers) <= i) indices ->
  results_dict_cells headers row label indices d
  = Raise (Exn IndexError "index out of range").
Proof.
  intros Hrow. revert d. induction Hrow as [|i indices Hr _ IH]; intros d Hex.
  - by apply Exists_nil in Hex.
  - simpl. destruct (decide (Z.of_nat (length headers) <= i)) as [Hi|Hi].
    + rewrite (py_index_out_of_range headers i) by done. reflexivity.
    + destruct (py_index_in_range headers i ltac:(lia)) as [h ->].
      destruct (py_index_in_range row i Hr) as [v ->]. bind_step. bind_step.
      apply IH. apply Exists_cons in Hex as [?|?]; [lia|done].
Qed.

(** the cells of one row: the indices are those of the row, so only the
    header row can be too short *)
Lemma results_dict_row_cells headers row label d :
  ((length row <= 1 \/ length row <= length headers)%nat ->
   exists d', results_dict_cells headers row label
                (seqZ 1 (Z.of_nat (length row) - 1)) d = Return d')
  /\
  (~ (length row <= 1 \/ length row <= length headers)%nat ->
   results_dict_cells headers row label (seqZ 1 (Z.of_nat (length row) - 1)) d
   = Raise (Exn IndexError "index out of range")).
Proof.
  split.
  - intros H. apply results_dict_cells_returns. apply Forall_forall.
    intros i Hi. apply elem_of_seqZ in Hi. lia.
  - intros H. apply results_dict_cells_raises.
    + apply Forall_forall. intros i Hi. apply elem_of_seqZ in Hi. lia.
    + apply Exists_exists. exists (Z.max 1 (Z.of_nat (length headers))). split; [|lia].
      apply elem_of_seqZ. lia.
Qed.

Lemma results_dict_rows_returns headers rows d :
  Forall (fun row : list string =>
            row <> [] /\ (length row <= 1 \/ length row <= length headers)%nat) rows ->
  exists d', results_dict_rows headers rows d = Return d'.
Proof.
  intros H. revert d. induction H as [|row rows [Hne Hlen] _ IH]; intros d; simpl; [eauto|].
  destruct (py_index_in_range row 0) as [r0 ->].
  { destruct row; [done|]. simpl. lia. }
  bind_step.
  destruct (proj1 (results_dict_row_cells headers row (sanitize_label r0) d) Hlen)
    as [d' ->].
  bind_step. apply IH.
Qed.

Lemma results_dict_rows_raises headers rows d :
  ~ Forall (fun row : list string =>
              row <> [] /\ (length row <= 1 \/ length row <= length headers)%nat) rows ->
  results_dict_rows headers rows d = Raise (Exn IndexError "index out of range").
Proof.
  revert d. induction rows as [|row rows IH]; intros d H.
  - destruct H. constructor.
  - simpl. destruct (decide (row = [])) as [->|Hne]; [done|].
    destruct (py_index_in_range row 0) as [r0 ->].
    { destruct row; [done|]. simpl. lia. }
    bind_step.
    destruct (decide (length row <= 1 \/ length row <= length headers)%nat) as [Hlen|Hlen].
    + destruct (proj1 (results_dict_row_cells headers row (sanitize_label r0) d) Hlen)
        as [d' ->].
      bind_step. apply IH. intros Hrest. apply H. constructor; [|done].
      done.
    + by rewrite (proj2 (results_dict_row_cells headers row (sanitize_label r0) d) Hlen).
Qed.

(** X16: the conversion of the result table into the dictionary of the CSV
    log succeeds exactly when every data row has a first cell and, if it
    has more than one cell, is no longer than the header row; otherwise it
    raises an [IndexError]. *)
Theorem results_dict_returns_iff headers rows :
  ((exists d, results_dict (headers :: rows) = Return d)
   <-> Forall (fun row => row <> []
                          /\ (length row <= 1 \/ length row <= length headers)%nat) rows)
  /\
  (~ Forall (fun row => row <> []
                        /\ (length row <= 1 \/ length row <= length headers)%nat) rows ->
   results_dict (headers :: rows) = Raise (Exn IndexError "index out of range")).
Proof.
  split; [split|].
  - intros [d E].
    destruct (decide (Forall (fun row : list string =>
                row <> [] /\ (length row <= 1 \/ length row <= length headers)%nat) rows))
      as [H|H]; [done|].
    apply (results_dict_rows_raises headers rows []) in H.
    simpl in E. congruence.
  - apply results_dict_rows_returns.
  - apply results_dict_rows_raises.
Qed.

(** X17: a table that [execute_scoring_python] has accepted converts into
    the dictionary of the CSV log, with one exception: a table whose header
    row is empty and which has data rows (every one of them empty as well)
    passes the checks of the scoring path and then fails in the report with
    an [IndexError]. *)
Theorem python_table_converts_iff `{host : Host} code inputs md table opts :
  execute_scoring_python code inputs = Return (md, table, opts) ->
  ((exists d, results_dict table = Return d)
   <-> (head table <> Some [] \/ length table = 1%nat)).
Proof.
  intros E. apply execute_scoring_python_table in E as (header & rest & -> & Hrest).
  simpl. split.
  - intros [d Hd]. destruct header as [|h header]; [|by left]. right.
    destruct rest as [|row rest]; [done|]. exfalso.
    rewrite results_dict_rows_raises in Hd; [done|].
    intros Hall. apply Forall_cons in Hall as [[Hne _] _].
    apply Forall_cons in Hrest as [Hlen _]. by destruct row.
  - intros [Hhead|Hone].
    + apply results_dict_rows_returns. eapply Forall_impl; [exact Hrest|].
      intros row Hrow. simpl in Hrow. destruct header; [done|].
      split; [by destruct row|lia].
    + destruct rest; [|simpl in Hone; lia]. simpl. eauto.
Qed.

Lemma python_table_converts_iff_witness :
  exists d, results_dict [["score"; "risk"]; ["1"; "low"]] = Return d.
Proof.
  apply (python_table_converts_iff (host:=demo_host) ok_script ∅ "Low risk"
           [["score"; "risk"]; ["1"; "low"]] (VDict [])).
  - vm_compute; reflexivity.
  - left. discriminate.
Defined.

(** ** The markdown lines of the report *)

(** X18: a line escaped by [safe_line] holds no [<] and no [>], and a line
    that has none of the three characters [&], [<] and [>] is left as it
    is. *)
Theorem safe_line_escapes line :
  (~ occurs "<" (safe_line line) /\ ~ occurs ">" (safe_line line))
  /\ (~ occurs "&" line -> ~ occurs "<" line -> ~ occurs ">" line ->
      safe_line line = line).
Proof.
  unfold safe_line. split; [split|].
  - intros H. apply py_replace_occurs in H as [H|H]; [|simpl in H; intuition congruence].
    revert H. apply py_replace_char_removed. simpl. intuition congruence.
  - apply py_replace_char_removed. simpl. intuition congruence.
  - intros Ha Hl Hg.
    rewrite (py_replace_char_absent "&" _ line Ha).
    rewrite (py_replace_char_absent "<" _ line Hl).
    apply (py_replace_char_absent ">" _ line Hg).
Qed.

Lemma safe_line_escapes_witness :
  safe_line "a < b && b > c" = "a &lt; b &amp;&amp; b &gt; c"
  /\ safe_line "score: 3" = "score: 3".
Proof.
  split; [vm_compute; reflexivity|].
  apply (safe_line_escapes "score: 3"); simpl; intuition congruence.
Defined.

(** * The [--auth] argument: PrevMed/__main__.py *)

Lemma split_first_comma_Some s u p :
  split_first_comma s = Some (u, p) <-> s = u +:+ String "," p /\ ~ occurs "," u.
Proof.
  revert u. induction s as [|c s IH]; intros u.
  - simpl. split; [done|]. intros [E _]. by destruct u.
  - cbn [split_first_comma]. destruct (Ascii.eqb c ",") eqn:Ec.
    + apply Ascii.eqb_eq in Ec as ->. split.
      * intros E. injection E as <- <-. simpl. tauto.
      * intros [E Hu]. destruct u as [|x u].
        -- simpl in E. by injection E as <-.
        -- simpl in E, Hu. injection E as <- _. tauto.
    + apply Ascii.eqb_neq in Ec. split.
      * destruct (split_first_comma s) as [[b a]|] eqn:Es; [|done].
        intros E. injection E as <- <-. destruct (proj1 (IH b) eq_refl) as [-> Hb].
        simpl. split; [done|]. intuition congruence.
      * intros [E Hu]. destruct u as [|x u].
        -- simpl in E. injection E as -> _. done.
        -- simpl in E, Hu. injection E as <- ->.
           assert (split_first_comma (u +:+ String "," p) = Some (u, p)) as ->; [|done].
           apply IH. tauto.
Qed.

Lemma split_first_comma_None s :
  split_first_comma s = None <-> ~ occurs "," s.
Proof.
  induction s as [|c s IH]; simpl; [tauto|].
  destruct (Ascii.eqb c ",") eqn:Ec.
  - apply Ascii.eqb_eq in Ec as ->. split; [done|]. tauto.
  - apply Ascii.eqb_neq in Ec.
    destruct (split_first_comma s) as [[b a]|].
    + split; [done|]. intros H. assert (Hs : ~ occurs "," s) by tauto.
      by apply IH in Hs.
    + split; [|done]. intros _ [H|H]; [congruence|]. by apply IH in H.
Qed.

(** X19: the [--auth] argument is cut at its first comma: the user name is
    what is before it (and holds no comma), the password is everything
    after it, commas included.  Without the option, or with an empty one,
    the interface is launched without authentication; an argument that is
    not empty and has no comma stops the launcher. *)
Theorem launch_auth_first_comma (auth : option string) :
  (launch_auth auth = Return None <-> auth = None \/ auth = Some EmptyString)
  /\
  (forall authuser authpass,
      launch_auth auth = Return (Some [(authuser, authpass)])
      <-> auth = Some (authuser +:+ "," +:+ authpass) /\ ~ occurs "," authuser)
  /\
  ((exists e, launch_auth auth = Raise e)
   <-> exists a, auth = Some a /\ a <> EmptyString /\ ~ occurs "," a).
Proof.
  destruct auth as [[|c rest]|].
  - simpl. split; [|split].
    + split; [tauto|done].
    + intros u p. split; [done|]. intros [E _]. by destruct u.
    + split; [by intros [e E]|]. intros (a & E & Ha & _). congruence.
  - unfold launch_auth, parse_auth.
    pose proof (split_first_comma_Some (String c rest)) as HSome.
    pose proof (split_first_comma_None (String c rest)) as HNone.
    destruct (split_first_comma (String c rest)) as [[b a]|]; simpl; split; [|split| |split].
    + split; [done|]. intros [E|E]; discriminate.
    + intros u p. change ("," +:+ p) with (String "," p). split.
      * intros E. injection E as <- <-. destruct (proj1 (HSome b a) eq_refl) as [-> Hb].
        done.
      * intros [E Hu]. injection E as E.
        assert (Some (b, a) = Some (u, p)) as E' by (apply HSome; done).
        by injection E' as <- <-.
    + split; [by intros [e E]|]. intros (x & E & _ & Hx). injection E as <-.
      by apply HNone in Hx.
    + split; [done|]. intros [E|E]; discriminate.
    + intros u p. change ("," +:+ p) with (String "," p). split; [done|].
      intros [E Hu]. injection E as E.
      assert (None = Some (u, p)) as E' by (apply HSome; done). done.
    + split; [|eauto]. intros _. exists (String c rest).
      split; [done|]. split; [done|]. by apply HNone.
  - simpl. split; [|split].
    + split; [tauto|done].
    + intros u p. split; [done|]. by intros [E _].
    + split; [by intros [e E]|]. intros (a & E & _). congruence.
Qed.

(** * The CSV log: [append_to_csv_log] *)

(** ** Dictionaries that keep the order of insertion *)




(** ** Keys that end in [_hash] *)





Section CsvProperties.
Variable sha256_hexdigest : string -> string.
Variable json_dumps : Value -> exn + string.
Variable strftime : Z -> string.



(** ** The header *)


Lemma list_insert_at_sublist i (x : string) l : l `sublist_of` list_insert_at i x l.
Proof.
  unfold list_insert_at. rewrite <- (take_drop i l) at 1.
  apply sublist_app; [done|]. by apply sublist_cons.
Qed.


Lemma extend_fieldnames_sublist keys fieldnames :
  fieldnames `sublist_of` extend_fieldnames keys fieldnames.
Proof.
  revert fieldnames. induction keys as [|k keys IH]; intros fieldnames; simpl; [done|].
  etrans; [|apply IH]. case_bool_decide as Hin; [done|].
  destruct (String.eqb k "answers_hash" || py_endswith k "_hash").
  - by apply sublist_inserts_r.
  - destruct (list_index "answers_hash" fieldnames) as [hash_idx|].
    + apply list_insert_at_sublist.
    + by apply sublist_inserts_r.
Qed.


(** X21: when the log file exists and has a header, every column of that
    header is still a column of the header written, and the columns keep
    their order: new columns are only inserted. *)
Theorem csv_existing_headers_kept headers rows reference_code timestamp results answers
    client_info w :
  headers <> [] ->
  append_to_csv_log sha256_hexdigest json_dumps strftime (Some (headers, rows))
                    reference_code timestamp results answers client_info = Return w ->
  headers `sublist_of` written_fieldnames w.
Proof.
  intros Hne. unfold append_to_csv_log.
  assert (Hstate : (csv_existing_state (Some (headers, rows))).1.1.1 = headers).
  { unfold csv_existing_state. by case_bool_decide. }
  destruct (csv_existing_state (Some (headers, rows)))
    as [[[existing_headers existing_rows] row_number] is_rotated].
  simpl in Hstate. subst existing_headers.
  intros E. bind_inv E. injection E as <-. cbn [written_fieldnames].
  unfold csv_fieldnames.
  rewrite (bool_decide_eq_true_2 (headers <> [])) by done. cbn [andb].
  apply extend_fieldnames_sublist.
Qed.


End CsvProperties.


Lemma csv_existing_headers_kept_witness :
  exists w,
    demo_append_to_csv_log
      (Some (["reference_code"; "answers_hash"],
             [[("reference_code", "OLD-ONE"); ("answers_hash", "0123456789ab")]]))
      "ABC-XYZ" 0 [("smoker_Score", "3")] (VDict []) None = Return w
    /\ ["reference_code"; "answers_hash"] `sublist_of` written_fieldnames w.
Proof.
  destruct (returns_true
              (demo_append_to_csv_log
                 (Some (["reference_code"; "answers_hash"],
                        [[("reference_code", "OLD-ONE"); ("answers_hash", "0123456789ab")]]))
                 "ABC-XYZ" 0 [("smoker_Score", "3")] (VDict []) None)) as [w Hw];
    [vm_compute; reflexivity|].
  exists w. split; [exact Hw|].
  refine (csv_existing_headers_kept _ _ _ _ _ _ _ _ _ _ w _ Hw). discriminate.
Defined.


(** * The progress between two questions *)

Section StepProperties.
Context {host : Host}.
Implicit Types (questions qs : list Question) (context : gmap string Value).

Lemma count_valid_app_Return qs1 qs2 context n1 n2 :
  count_valid qs1 context = Return n1 ->
  count_valid qs2 context = Return n2 ->
  count_valid (qs1 ++ qs2) context = Return (n1 + n2).
Proof.
  revert n1. induction qs1 as [|q qs1 IH]; intros n1 E1 E2; simpl in *.
  - injection E1 as <-. rewrite E2. f_equal; lia.
  - bind_inv E1. bind_inv E1. injection E1 as <-.
    rewrite Ha. bind_step. rewrite (IH _ Ha0 E2). bind_step.
    f_equal; destruct a; lia.
Qed.

(** skipped questions do not count *)
Lemma count_valid_skipped questions context (start k : nat) :
  (forall m : nat, (m < k)%nat ->
                   skipped_at questions context (Z.of_nat start + Z.of_nat m)) ->
  count_valid (take k (drop start questions)) context = Return 0.
Proof.
  revert start. induction k as [|k IH]; intros start Hall; [done|].
  destruct (Hall 0%nat) as (_ & q & c & Hq & Hc & Hs); [lia|].
  replace (Z.to_nat (Z.of_nat start + Z.of_nat 0)) with start in Hq by lia.
  rewrite (drop_S _ _ _ Hq). simpl. rewrite Hc, Hs. bind_step. bind_step.
  rewrite (IH (S start)); [done|].
  intros m Hm. replace (Z.of_nat (S start) + Z.of_nat m)
                 with (Z.of_nat start + Z.of_nat (S m)) by lia.
  apply Hall. lia.
Qed.

Lemma count_valid_eligible questions context (i : Z) :
  eligible_at questions context i ->
  exists q, questions !! Z.to_nat i = Some q /\ count_valid [q] context = Return 1.
Proof.
  intros (_ & q & Hq & Hok). exists q. split; [done|]. simpl.
  destruct Hok as [->|(c & -> & ->)]; reflexivity.
Qed.

End StepProperties.

(** X23: going forward, the question number of the progress label goes up
    by exactly one: when [find_next_valid_question] goes from index [a] to a
    question [b] of the list, the count of eligible questions up to [b] is
    the count up to [a] plus one, however many skipped questions lie
    between the two. *)
Theorem progress_advances_by_one {host : Host}
    (questions : list Question) (context : gmap string Value) (a b n : Z) :
  -1 <= a ->
  find_next_valid_question a questions context 1 = Return b ->
  b < Z.of_nat (length questions) ->
  current_valid questions a context = Return n ->
  current_valid questions b context = Return (n + 1).
Proof.
  intros Ha Hscan Hb Hn. unfold find_next_valid_question in Hscan.
  apply find_next_loop_spec in Hscan as (k & Hskipped & Hend).
  cbv zeta in Hend. destruct Hend as [(Hrange & Helig & ->)|(Hout & ->)].
  2:{ case_bool_decide; lia. }
  unfold current_valid, py_slice_to in *.
  rewrite bool_decide_eq_false_2 in Hn by lia.
  rewrite bool_decide_eq_false_2 by lia.
  destruct (count_valid_eligible _ _ _ Helig) as (q & Hq & Hone).
  replace (Z.to_nat (a + 1 + Z.of_nat k * 1 + 1))
    with (S (Z.to_nat (a + 1) + k)) by lia.
  replace (Z.to_nat (a + 1 + Z.of_nat k * 1)) with (Z.to_nat (a + 1) + k)%nat in Hq by lia.
  rewrite (take_S_r _ _ _ Hq), <- take_take_drop.
  apply count_valid_app_Return; [|exact Hone].
  replace n with (n + 0) by lia.
  apply count_valid_app_Return; [exact Hn|].
  apply count_valid_skipped. intros m Hm.
  replace (Z.of_nat (Z.to_nat (a + 1)) + Z.of_nat m)
    with (a + 1 + Z.of_nat m * 1) by lia.
  by apply Hskipped.
Qed.

Lemma progress_advances_by_one_witness :
  current_valid scenario_b 2 {["q1" := VStr "no"]} = Return (1 + 1).
Proof.
  apply (progress_advances_by_one scenario_b {["q1" := VStr "no"]} 0 2 1).
  - lia.
  - vm_compute. reflexivity.
  - simpl. lia.
  - vm_compute. reflexivity.
Defined.

(** * [go_next] without a warning *)

Section StrictProperties.
Context {host : Host}.
Variable questions : list Question.
Variable scoring_language scoring_code : string.
Variable client_info : option ClientInfo.

(** every rejection of [go_next] raises a warning *)
Lemma go_next_no_warning current_idx args u :
  go_next questions scoring_language scoring_code client_info current_idx args
  = ([], Return u) ->
  go_next_advance questions scoring_language scoring_code client_info current_idx args
  = Return u.
Proof.
  unfold go_next.
  destruct (py_index args current_idx) as [v|e|]; [|intros E; discriminate..].
  destruct (py_index questions current_idx) as [q|e|]; [|intros E; discriminate..].
  destruct (negb (has_default q) && is_empty v); [intros E; discriminate|].
  unfold go_next_validate.
  destruct (valid_if q) as [c|]; [|intros E; by injection E].
  destruct (build_context 0 questions args ∅) as [context|e|]; [|intros E; discriminate..].
  destruct (evaluate_valid_if c context) as [[|]|e|]; simpl; intros E;
    try discriminate.
  by injection E.
Qed.

(** the navigation state that [go_next_advance] returns is the one of the
    projection at the index the scan has found *)
Lemma go_next_advance_state current_idx args u :
  go_next_advance questions scoring_language scoring_code client_info current_idx args
  = Return u ->
  exists context new_idx updates,
    build_context 0 questions args ∅ = Return context /\
    find_next_valid_question current_idx questions context 1 = Return new_idx /\
    update_question_display questions new_idx args = Return updates /\
    u !! current_question_idx = updates !! current_question_idx.
Proof.
  unfold go_next_advance. intros E.
  apply bind_Return in E as (context & Hctx & E).
  apply bind_Return in E as (new_idx & Hfind & E).
  apply bind_Return in E as (updates & Hupd & E).
  exists context, new_idx, updates. do 3 (split; [done|]).
  case_bool_decide as Hend.
  - apply bind_Return in E as (inputs & _ & E).
    destruct (execute_scoring scoring_language scoring_code inputs)
      as [[[md table] opts]|e|]; simpl in E; [| |discriminate].
    + destruct (generate_pdf_report questions inputs md table opts client_info)
        as [path|e|]; simpl in E; [| |discriminate];
        injection E as <-; by rewrite !lookup_insert_ne by discriminate.
    + injection E as <-. by rewrite !lookup_insert_ne by discriminate.
  - injection E as <-. by rewrite !lookup_insert_ne by discriminate.
Qed.

Lemma find_next_forward_gt current_idx context r :
  -1 <= current_idx ->
  find_next_valid_question current_idx questions context 1 = Return r ->
  current_idx < r.
Proof.
  intros Hcur E. unfold find_next_valid_question in E.
  apply find_next_loop_spec in E as (k & _ & Hend). cbv zeta in Hend.
  destruct Hend as [(_ & _ & ->)|(Hout & ->)]; [lia|].
  case_bool_decide; lia.
Qed.

End StrictProperties.

(** X24: [go_next] never stays and never goes back silently: from a
    question of the list, a result without a warning carries a navigation
    state that is strictly after the current index and at most the number of
    questions. *)
Theorem go_next_advances_strictly {host : Host}
    (questions : list Question) (scoring_language scoring_code : string)
    (client_info : option ClientInfo) (current_idx : Z) (args : list Value)
    (u : gmap component update) :
  0 <= current_idx < Z.of_nat (length questions) ->
  go_next questions scoring_language scoring_code client_info current_idx args
  = ([], Return u) ->
  exists d, u !! current_question_idx = Some (StateValue d)
            /\ current_idx < d <= Z.of_nat (length questions).
Proof.
  intros Hcur E. apply go_next_no_warning in E.
  apply go_next_advance_state in E as (context & new_idx & updates & Hctx & Hfind & Hupd & ->).
  pose proof (find_next_forward_gt questions current_idx context new_idx
                ltac:(lia) Hfind) as Hgt.
  pose proof (find_next_forward_le questions current_idx context new_idx
                ltac:(lia) Hfind) as Hle.
  apply update_question_display_inv in Hupd
    as (context' & d & rows & total & current & _ & Hloop & _ & _ & _ & ->).
  exists d. split; [by rewrite lookup_insert_eq|].
  apply display_loop_spec in Hloop as (Hd & _ & _ & Hmax & _). lia.
Qed.

Lemma go_next_advances_strictly_witness :
  exists u d,
    go_next scenario_b "python" ok_script None 0 [VStr "no"; VNone; VNone] = ([], Return u)
    /\ u !! current_question_idx = Some (StateValue d) /\ 0 < d <= 3.
Proof.
  destruct (returns_true
              (go_next scenario_b "python" ok_script None 0 [VStr "no"; VNone; VNone]).2)
    as [u Hu]; [vm_compute; reflexivity|].
  assert (E : go_next scenario_b "python" ok_script None 0 [VStr "no"; VNone; VNone]
              = ([], Return u)).
  { rewrite <- Hu. apply injective_projections; [vm_compute; reflexivity|reflexivity]. }
  destruct (go_next_advances_strictly scenario_b "python" ok_script None 0
              [VStr "no"; VNone; VNone] u) as (d & Hd & Hrange).
  - simpl. lia.
  - exact E.
  - exists u, d. split; [exact E|]. split; [exact Hd|]. simpl in Hrange. lia.
Defined.

(** X25: a rejected answer keeps the user on the question, as long as that
    question is not itself skipped under the submitted values: when the
    current question passes the test of the display loop, a result of
    [go_next] that comes with a warning (empty answer, invalid answer, or a
    validation that raised) carries the current index as navigation
    state. *)
Theorem go_next_warning_stays {host : Host}
    (questions : list Question) (scoring_language scoring_code : string)
    (client_info : option ClientInfo) (current_idx : Z) (args : list Value)
    (context : gmap string Value) (warnings : list string)
    (u : gmap component update) :
  build_context 0 questions args ∅ = Return context ->
  displayable_at questions context current_idx ->
  go_next questions scoring_language scoring_code client_info current_idx args
  = (warnings, Return u) ->
  warnings <> [] ->
  u !! current_question_idx = Some (StateValue current_idx).
Proof.
  intros Hctx Hdisp E Hwarn.
  assert (Hupd : update_question_display questions current_idx args = Return u).
  { revert E. unfold go_next.
    destruct (py_index args current_idx) as [v|e|];
      [|intros E; injection E as <-; done..].
    destruct (py_index questions current_idx) as [q|e|];
      [|intros E; injection E as <-; done..].
    destruct (negb (has_default q) && is_empty v); [intros E; by injection E|].
    unfold go_next_validate.
    destruct (valid_if q) as [c|]; [|intros E; injection E as <-; done].
    rewrite Hctx.
    destruct (evaluate_valid_if c context) as [[|]|e|]; simpl; intros E;
      injection E as <- E; done. }
  by eapply update_question_display_stays.
Qed.

Lemma go_next_warning_stays_witness :
  exists u,
    (go_next adult_only "python" ok_script None 0 [VInt 12]).2 = Return u
    /\ u !! current_question_idx = Some (StateValue 0).
Proof.
  destruct (returns_true (go_next adult_only "python" ok_script None 0 [VInt 12]).2)
    as [u Hu]; [vm_compute; reflexivity|].
  exists u. split; [exact Hu|].
  apply (go_next_warning_stays adult_only "python" ok_script None 0 [VInt 12]
           {["age" := VInt 12]} ["Must be adult"] u).
  - vm_compute. reflexivity.
  - split; [lia|]. eexists. split; [reflexivity|]. vm_compute. reflexivity.
  - rewrite <- Hu. apply injective_projections; [vm_compute; reflexivity|reflexivity].
  - discriminate.
Defined.

(** ** The place of the hash columns *)

Lemma list_index_first (x : string) (pre post : list string) :
  x ∉ pre -> list_index x (pre ++ x :: post) = Some (length pre).
Proof.
  induction pre as [|y pre IH]; intros Hx; simpl.
  - by rewrite String.eqb_refl.
  - apply not_elem_of_cons in Hx as [Hne Hx].
    destruct (String.eqb y x) eqn:E; [apply String.eqb_eq in E; congruence|].
    by rewrite IH.
Qed.

Lemma extend_fieldnames_hash_last keys pre post :
  Forall (fun k => py_endswith k "_hash" = false) pre ->
  Forall (fun k => py_endswith k "_hash" = true) post ->
  exists pre' post',
    extend_fieldnames keys (pre ++ "answers_hash" :: post)
    = (pre ++ pre') ++ "answers_hash" :: (post ++ post')
    /\ Forall (fun k => py_endswith k "_hash" = false) pre'
    /\ Forall (fun k => py_endswith k "_hash" = true) post'.
Proof.
  revert pre post. induction keys as [|key keys IH]; intros pre post Hpre Hpost.
  - exists [], []. by rewrite !app_nil_r.
  - cbn [extend_fieldnames]. case_bool_decide as Hin; [by apply IH|].
    destruct (py_endswith key "_hash") eqn:Ekey.
    + rewrite orb_true_r.
      replace ((pre ++ "answers_hash" :: post) ++ [key])
        with (pre ++ "answers_hash" :: (post ++ [key]))
        by (exact (app_assoc pre ("answers_hash" :: post) [key])).
      destruct (IH pre (post ++ [key])) as (pre' & post' & -> & Hpre' & Hpost');
        [done|by apply Forall_app; split; [|constructor]|].
      exists pre', (key :: post'). split; [by rewrite <- (app_assoc post [key] post')|].
      split; [done|by constructor].
    + destruct (String.eqb key "answers_hash") eqn:Eeq.
      { apply String.eqb_eq in Eeq as ->. vm_compute in Ekey. discriminate. }
      cbn [orb]. rewrite list_index_first.
      2:{ intros Hx. eapply Forall_forall in Hpre; [|exact Hx].
          vm_compute in Hpre. discriminate. }
      unfold list_insert_at. rewrite take_app_length, drop_app_length.
      replace (pre ++ key :: "answers_hash" :: post)
        with ((pre ++ [key]) ++ "answers_hash" :: post)
        by (symmetry; exact (app_assoc pre [key] ("answers_hash" :: post))).
      destruct (IH (pre ++ [key]) post) as (pre' & post' & -> & Hpre' & Hpost');
        [by apply Forall_app; split; [|constructor]|done|].
      exists (key :: pre'), post'. split; [by rewrite <- (app_assoc pre [key] pre')|].
      split; [by constructor|done].
Qed.

Section HashColumns.
Variable sha256_hexdigest : string -> string.
Variable json_dumps : Value -> exn + string.
Variable strftime : Z -> string.

(** X26: the hash columns stay last.  When the header of the log file is
    made of columns that do not end in [_hash], then [answers_hash], then
    columns that end in [_hash], the header written has the same shape: new
    result columns are put right before [answers_hash] and new hash columns
    at the end. *)
Theorem csv_hash_columns_stay_last pre post rows reference_code timestamp results
    answers client_info w :
  Forall (fun k => py_endswith k "_hash" = false) pre ->
  Forall (fun k => py_endswith k "_hash" = true) post ->
  append_to_csv_log sha256_hexdigest json_dumps strftime
                    (Some (pre ++ "answers_hash" :: post, rows))
                    reference_code timestamp results answers client_info = Return w ->
  exists pre' post',
    written_fieldnames w = (pre ++ pre') ++ "answers_hash" :: (post ++ post')
    /\ Forall (fun k => py_endswith k "_hash" = false) pre'
    /\ Forall (fun k => py_endswith k "_hash" = true) post'.
Proof.
  intros Hpre Hpost. unfold append_to_csv_log.
  assert (Hstate : (csv_existing_state (Some (pre ++ "answers_hash" :: post, rows))).1.1.1
                   = pre ++ "answers_hash" :: post).
  { unfold csv_existing_state. by case_bool_decide. }
  destruct (csv_existing_state (Some (pre ++ "answers_hash" :: post, rows)))
    as [[[existing_headers existing_rows] row_number] is_rotated].
  simpl in Hstate. subst existing_headers.
  intros E. bind_inv E. injection E as <-. cbn [written_fieldnames].
  unfold csv_fieldnames.
  rewrite (bool_decide_eq_true_2 (pre ++ "answers_hash" :: post <> [])).
  2:{ by destruct pre. }
  cbn [andb]. by apply extend_fieldnames_hash_last.
Qed.

End HashColumns.

Lemma csv_hash_columns_stay_last_witness :
  exists w pre' post',
    demo_append_to_csv_log
      (Some (["reference_code"; "answers_hash"; "ip_hash"], []))
      "ABC-XYZ" 0 [("smoker_Score", "3")] (VDict [])
      (Some [("agent", VStr "curl")]) = Return w
    /\ written_fieldnames w
       = (["reference_code"] ++ pre') ++ "answers_hash" :: (["ip_hash"] ++ post').
Proof.
  destruct (returns_true
              (demo_append_to_csv_log
                 (Some (["reference_code"; "answers_hash"; "ip_hash"], []))
                 "ABC-XYZ" 0 [("smoker_Score", "3")] (VDict [])
                 (Some [("agent", VStr "curl")]))) as [w Hw]; [vm_compute; reflexivity|].
  destruct (csv_hash_columns_stay_last
              (fun s => s) (fun _ => inr "{}") (fun _ => "1970-01-01 00:00:00")
              ["reference_code"] ["ip_hash"] [] "ABC-XYZ" 0 [("smoker_Score", "3")]
              (VDict []) (Some [("agent", VStr "curl")]) w)
    as (pre' & post' & E & _).
  - repeat constructor.
  - repeat constructor.
  - exact Hw.
  - exists w, pre', post'. split; [exact Hw|exact E].
Defined.
